(** * A fixed-bucket histogram (package [histogram]) and its [Range] helper

    Shallow embedding of [histogram.go] and [bucketboundaries.go].

    - An [int64] is a [Z]; every arithmetic operation of the source is
      followed by the two's-complement wrap-around [wrap64].
    - A method that can hit a Go run-time panic returns a [result]; the
      constructor, which returns a pointer and an [error], uses the same type
      with its [Error] constructor.
    - A [*Histogram] is a pointer into a [heap]; methods that touch only
      their receiver are functions on the pointed-to record, lifted to the
      heap by [on_receiver]; the two merge methods, which read a second
      histogram that may be the receiver itself, are written on the heap. *)

From Stdlib Require Import ZArith Lia Floats.
From stdpp Require Import base list strings.
From Equations Require Import Equations.

Local Open Scope Z_scope.

(** ** 64-bit signed integers *)

Definition MinInt64 : Z := - 2 ^ 63.
Definition MaxInt64 : Z := 2 ^ 63 - 1.

(** [int64 z]: [z] is a value of Go's type [int64]. *)
Definition int64 (z : Z) : Prop := MinInt64 <= z <= MaxInt64.

(** Two's-complement reduction of a mathematical integer to [int64]. *)
Definition wrap64 (z : Z) : Z := (z + 2 ^ 63) mod 2 ^ 64 - 2 ^ 63.

Definition add64 (a b : Z) : Z := wrap64 (a + b).
Definition sub64 (a b : Z) : Z := wrap64 (a - b).

(** ** Outcomes: a value, a returned [error], or a run-time panic *)

Inductive error : Set :=
| emptyError              (* errors.New("Slice is empty") *)
| invalidBoundariesError. (* errors.New("Invalid bucket boundaries") *)

Inductive panic : Set :=
| IndexOutOfRange          (* runtime error: index out of range *)
| NilDereference           (* runtime error: invalid memory address *)
| MakesliceLenOutOfRange   (* runtime error: makeslice: len out of range *)
| DivideByZero             (* runtime error: integer divide by zero *)
| PanicMsg (msg : string). (* panic("...") *)

Inductive result (A : Type) : Type :=
| Ok (a : A)
| Error (e : error)
| Panic (p : panic).
Arguments Ok {A} a.
Arguments Error {A} e.
Arguments Panic {A} p.

Definition bind {A B} (m : result A) (k : A -> result B) : result B :=
  match m with
  | Ok a => k a
  | Error e => Error e
  | Panic p => Panic p
  end.

Notation "'let*' x ':=' m 'in' k" := (bind m (fun x => k))
  (at level 10, x name, m at level 100, k at level 200).

(** [for i := start; i < start+count; i++ { s = body i s }], where the
    bound does not change while the loop runs. *)
Fixpoint for_range {State : Type} (start : nat) (count : nat)
    (body : nat -> State -> result State) (s : State) : result State :=
  match count with
  | O => Ok s
  | S count' =>
      let* s' := body start s in
      for_range (S start) count' body s'
  end.

(** ** Slices of [int64] *)

(** A slice value as a caller holds it: [None] is the [nil] slice, [Some l]
    a non-nil slice with elements [l] (possibly none). *)
Definition slice : Type := option (list Z).

(** [l[i]] for a loop index. *)
Definition slice_get (l : list Z) (i : nat) : result Z :=
  match l !! i with
  | Some x => Ok x
  | None => Panic IndexOutOfRange
  end.

(** [l[i]] for an [int] supplied by a caller, which may be negative. *)
Definition slice_getZ (l : list Z) (i : Z) : result Z :=
  if i <? 0 then Panic IndexOutOfRange else slice_get l (Z.to_nat i).

(** [l[i] = x]. *)
Definition slice_set (l : list Z) (i : nat) (x : Z) : result (list Z) :=
  match l !! i with
  | Some _ => Ok (<[i := x]> l)
  | None => Panic IndexOutOfRange
  end.

(** [make([]int64, n)] for an [int] n; memory is taken to be unbounded, so
    only a negative length panics. *)
Definition make (n : Z) : result (list Z) :=
  if n <? 0 then Panic MakesliceLenOutOfRange else Ok (replicate (Z.to_nat n) 0).

(** [copy(dst, src)]: the first [min(len(dst), len(src))] elements of [dst]
    are overwritten by those of [src]. *)
Definition copy (dst src : list Z) : list Z :=
  let n := Nat.min (length dst) (length src) in
  take n src ++ drop n dst.

(** ** [sort.Search] of the Go standard library

    [Search(n, f)] starts from [i, j := 0, n] and, while [i < j], takes
    [h := int(uint(i+j) >> 1)] and sets [i = h + 1] if [!f(h)], [j = h]
    otherwise; it returns [i]. *)

Equations? Search_loop (f : nat -> result bool) (i j : nat) : result nat
  by wf (j - i)%nat lt :=
Search_loop f i j with lt_dec i j := {
  | right _ := Ok i
  | left _ with f (Nat.div2 (i + j)) := {
    | Ok false := Search_loop f (S (Nat.div2 (i + j))) j
    | Ok true := Search_loop f i (Nat.div2 (i + j))
    | Error e := Error e
    | Panic p := Panic p } }.
Proof.
  all: pose proof (Nat.div2_odd (i + j)) as Hd;
    destruct (Nat.odd (i + j)); simpl in Hd; lia.
Qed.

Definition Search (n : nat) (f : nat -> result bool) : result nat :=
  Search_loop f 0 n.

(** ** The histogram

    The three slice fields hold the elements of their slices. Whether a
    slice is nil matters to [New] alone, which tests its argument against
    nil; every method only takes the length of a slice or indexes it, and a
    nil slice has length 0. *)

Record Histogram : Type := mkHistogram {
  bucketBoundaries : list Z;
  bucketCounts : list Z;
  bucketTotals : list Z;
  numSamples : Z;
  total : Z
}.

(** [New]: the loop runs for [i] from 0 while [i < len(bucketBoundaries)-1];
    for an empty slice that bound is -1 and the body never runs, which the
    truncated subtraction on [nat] reproduces. *)
Definition New (bucketBoundaries : slice) : result Histogram :=
  match bucketBoundaries with
  | None => Error emptyError
  | Some b =>
      let* _ := for_range 0 (length b - 1) (fun i _ =>
             let* x := slice_get b i in
             let* y := slice_get b (i + 1) in
             if x >=? y then Error invalidBoundariesError else Ok tt) tt in
      let* counts := make (Z.of_nat (length b) + 1) in
      let* totals := make (Z.of_nat (length b) + 1) in
      Ok (mkHistogram b counts totals 0 0)
  end.

(** The closure handed to [sort.Search] by both increment methods. *)
Definition exceeds (h : Histogram) (val : Z) (i : nat) : result bool :=
  let* b := slice_get (bucketBoundaries h) i in Ok (b >? val).

Definition Increment (h : Histogram) (val : Z) : result Histogram :=
  let* index := Search (length (bucketBoundaries h)) (exceeds h val) in
  let* c := slice_get (bucketCounts h) index in
  let* counts := slice_set (bucketCounts h) index (add64 c 1) in
  let* t := slice_get (bucketTotals h) index in
  let* totals := slice_set (bucketTotals h) index (add64 t val) in
  Ok (mkHistogram (bucketBoundaries h) counts totals
        (add64 (numSamples h) 1) (add64 (total h) val)).

(** *** [AtomicIncrement] and [sync/atomic]

    An address inside a histogram, as [&h.bucketCounts[index]] or
    [&h.numSamples] produces it; taking the address of a slice element is
    bounds-checked. [atomic_AddInt64] is the read-add-write on that address
    as one step. *)

Inductive addr : Set :=
| AddrBucketCounts (i : nat)
| AddrBucketTotals (i : nat)
| AddrNumSamples
| AddrTotal.

Definition addr_of_elem (l : list Z) (field : nat -> addr) (i : nat) : result addr :=
  match l !! i with
  | Some _ => Ok (field i)
  | None => Panic IndexOutOfRange
  end.

Definition load (h : Histogram) (a : addr) : Z :=
  match a with
  | AddrBucketCounts i => default 0 (bucketCounts h !! i)
  | AddrBucketTotals i => default 0 (bucketTotals h !! i)
  | AddrNumSamples => numSamples h
  | AddrTotal => total h
  end.

Definition store (h : Histogram) (a : addr) (x : Z) : Histogram :=
  match a with
  | AddrBucketCounts i =>
      mkHistogram (bucketBoundaries h) (<[i := x]> (bucketCounts h)) (bucketTotals h)
        (numSamples h) (total h)
  | AddrBucketTotals i =>
      mkHistogram (bucketBoundaries h) (bucketCounts h) (<[i := x]> (bucketTotals h))
        (numSamples h) (total h)
  | AddrNumSamples =>
      mkHistogram (bucketBoundaries h) (bucketCounts h) (bucketTotals h) x (total h)
  | AddrTotal =>
      mkHistogram (bucketBoundaries h) (bucketCounts h) (bucketTotals h) (numSamples h) x
  end.

Definition atomic_AddInt64 (a : addr) (delta : Z) (h : Histogram) : Histogram :=
  store h a (add64 (load h a) delta).

Definition AtomicIncrement (h : Histogram) (val : Z) : result Histogram :=
  let* index := Search (length (bucketBoundaries h)) (exceeds h val) in
  let* a := addr_of_elem (bucketCounts h) AddrBucketCounts index in
  let h := atomic_AddInt64 a 1 h in
  let* a := addr_of_elem (bucketTotals h) AddrBucketTotals index in
  let h := atomic_AddInt64 a val h in
  let h := atomic_AddInt64 AddrNumSamples 1 h in
  Ok (atomic_AddInt64 AddrTotal val h).

(** *** Accessors; an [index] argument is a Go [int] and may be negative *)

Definition BucketRanges (h : Histogram) (index : Z) : result (Z * Z) :=
  if (index <? 0) || (index >? Z.of_nat (length (bucketBoundaries h))) then
    Panic (PanicMsg "index out of bound")
  else if index =? 0 then
    let* hi := slice_getZ (bucketBoundaries h) index in
    Ok (MinInt64, hi)
  else if index =? Z.of_nat (length (bucketBoundaries h)) then
    let* lo := slice_getZ (bucketBoundaries h) (index - 1) in
    Ok (lo, MaxInt64)
  else
    let* lo := slice_getZ (bucketBoundaries h) (index - 1) in
    let* hi := slice_getZ (bucketBoundaries h) index in
    Ok (lo, hi).

Definition BucketCount (h : Histogram) (index : Z) : result Z :=
  slice_getZ (bucketCounts h) index.

Definition BucketTotal (h : Histogram) (index : Z) : result Z :=
  slice_getZ (bucketTotals h) index.

(** [float64(x)] for an [int64] x: the nearest double, ties to even. *)
Definition float64 (x : Z) : float :=
  if x =? MinInt64 then (- (PrimFloat.of_uint63 (Uint63.of_Z (2 ^ 62)) * 2))%float
  else if x <? 0 then (- PrimFloat.of_uint63 (Uint63.of_Z (- x)))%float
  else PrimFloat.of_uint63 (Uint63.of_Z x).

Definition BucketAverage (h : Histogram) (index : Z) : result float :=
  let* c := slice_getZ (bucketCounts h) index in
  if c =? 0 then Ok 0%float
  else
    let* t := slice_getZ (bucketTotals h) index in
    let* c := slice_getZ (bucketCounts h) index in
    Ok (float64 t / float64 c)%float.

Definition Size (h : Histogram) : result Z :=
  if negb (length (bucketCounts h) =? length (bucketTotals h))%nat then
    Panic (PanicMsg "Mismatch in lengths of bucketCounts and bucketTotals")
  else Ok (Z.of_nat (length (bucketCounts h))).

Definition Count (h : Histogram) : Z := numSamples h.

Definition Total (h : Histogram) : Z := total h.

Definition Average (h : Histogram) : float :=
  if numSamples h =? 0 then float64 0
  else (float64 (total h) / float64 (numSamples h))%float.

(** *** [Clear]: the two scalar resets sit inside the loop body *)

Definition Clear (h : Histogram) : result Histogram :=
  if negb (length (bucketCounts h) =? length (bucketTotals h))%nat then
    Panic (PanicMsg "Mismatch in lengths of bucketCounts and bucketTotals")
  else
    for_range 0 (length (bucketCounts h)) (fun i h =>
      let* counts := slice_set (bucketCounts h) i 0 in
      let* totals := slice_set (bucketTotals h) i 0 in
      Ok (mkHistogram (bucketBoundaries h) counts totals 0 0)) h.

Definition Copy (h : Histogram) : result Histogram :=
  let* bucketBoundaries' := make (Z.of_nat (length (bucketBoundaries h))) in
  let bucketBoundaries' := copy bucketBoundaries' (bucketBoundaries h) in
  let* bucketCounts' := make (Z.of_nat (length (bucketCounts h))) in
  let bucketCounts' := copy bucketCounts' (bucketCounts h) in
  let* bucketTotals' := make (Z.of_nat (length (bucketTotals h))) in
  let bucketTotals' := copy bucketTotals' (bucketTotals h) in
  Ok (mkHistogram bucketBoundaries' bucketCounts' bucketTotals' (numSamples h) (total h)).

Definition BucketBoundaries (h : Histogram) : list Z := bucketBoundaries h.

Definition BucketCounts (h : Histogram) : list Z := bucketCounts h.

(** ** Pointers to histograms

    A [*Histogram] is an index into the list of allocated histograms.
    [New] and [Copy] allocate the counter slices afresh, so no two
    histograms share them and they live in the record; the boundary slice
    may be shared with the caller or with another histogram, but no method
    writes to it. Writes by a caller through the slices that
    [BucketBoundaries] and [BucketCounts] hand out are not modelled. A
    pointer that names no histogram stands for [nil]. *)

Abbreviation ptr := nat (only parsing).

Abbreviation heap := (list Histogram) (only parsing).

Definition deref (σ : heap) (p : ptr) : result Histogram :=
  match σ !! p with
  | Some h => Ok h
  | None => Panic NilDereference
  end.

(** A method that reads and writes its receiver only. *)
Definition on_receiver (method : Histogram -> result Histogram)
    (h : ptr) (σ : heap) : result heap :=
  let* r := deref σ h in
  let* r' := method r in
  Ok (<[h := r']> σ).

(** [IncrementFromHistogram]: every statement reads [h] and [other] from
    the heap as it stands, so [other] may be [h] itself. *)
Definition IncrementFromHistogram (h other : ptr) (σ : heap) : result heap :=
  let* o := deref σ other in
  let* r := deref σ h in
  if negb (length (bucketBoundaries o) =? length (bucketBoundaries r))%nat then
    Panic (PanicMsg "Mismatch in sizes of  bucketBoundaries")
  else
    let* σ := for_range 0 (length (bucketCounts r)) (fun i σ =>
      let* r := deref σ h in
      let* o := deref σ other in
      let* x := slice_get (bucketCounts r) i in
      let* y := slice_get (bucketCounts o) i in
      let* counts := slice_set (bucketCounts r) i (add64 x y) in
      let σ := <[h := mkHistogram (bucketBoundaries r) counts (bucketTotals r)
                        (numSamples r) (total r)]> σ in
      let* r := deref σ h in
      let* o := deref σ other in
      let* x := slice_get (bucketTotals r) i in
      let* y := slice_get (bucketTotals o) i in
      let* totals := slice_set (bucketTotals r) i (add64 x y) in
      Ok (<[h := mkHistogram (bucketBoundaries r) (bucketCounts r) totals
                   (numSamples r) (total r)]> σ)) σ in
    let* r := deref σ h in
    let* o := deref σ other in
    let σ := <[h := mkHistogram (bucketBoundaries r) (bucketCounts r) (bucketTotals r)
                      (add64 (numSamples r) (numSamples o)) (total r)]> σ in
    let* r := deref σ h in
    let* o := deref σ other in
    Ok (<[h := mkHistogram (bucketBoundaries r) (bucketCounts r) (bucketTotals r)
                 (numSamples r) (add64 (total r) (total o))]> σ).

Definition DecrementFromHistogram (h other : ptr) (σ : heap) : result heap :=
  let* o := deref σ other in
  let* r := deref σ h in
  if negb (length (bucketBoundaries o) =? length (bucketBoundaries r))%nat then
    Panic (PanicMsg "Mismatch in sizes of  bucketBoundaries")
  else
    let* σ := for_range 0 (length (bucketCounts r)) (fun i σ =>
      let* r := deref σ h in
      let* o := deref σ other in
      let* x := slice_get (bucketCounts r) i in
      let* y := slice_get (bucketCounts o) i in
      let* counts := slice_set (bucketCounts r) i (sub64 x y) in
      let σ := <[h := mkHistogram (bucketBoundaries r) counts (bucketTotals r)
                        (numSamples r) (total r)]> σ in
      let* r := deref σ h in
      let* o := deref σ other in
      let* x := slice_get (bucketTotals r) i in
      let* y := slice_get (bucketTotals o) i in
      let* totals := slice_set (bucketTotals r) i (sub64 x y) in
      Ok (<[h := mkHistogram (bucketBoundaries r) (bucketCounts r) totals
                   (numSamples r) (total r)]> σ)) σ in
    let* r := deref σ h in
    let* o := deref σ other in
    let σ := <[h := mkHistogram (bucketBoundaries r) (bucketCounts r) (bucketTotals r)
                      (sub64 (numSamples r) (numSamples o)) (total r)]> σ in
    let* r := deref σ h in
    let* o := deref σ other in
    Ok (<[h := mkHistogram (bucketBoundaries r) (bucketCounts r) (bucketTotals r)
                 (numSamples r) (sub64 (total r) (total o))]> σ).

(** ** Programs over the single-writer operations

    A [call] is one operation of a caller that owns the heap; [CallNew]
    appends the new histogram when the constructor succeeds and leaves the
    heap as it is when the constructor returns an error, [CallCopy] appends
    the copy. *)

Inductive call : Type :=
| CallNew (bucketBoundaries : slice)
| CallIncrement (h : ptr) (val : Z)
| CallAtomicIncrement (h : ptr) (val : Z)
| CallClear (h : ptr)
| CallIncrementFromHistogram (h other : ptr)
| CallDecrementFromHistogram (h other : ptr)
| CallCopy (h : ptr).

Definition exec (c : call) (σ : heap) : result heap :=
  match c with
  | CallNew b =>
      match New b with
      | Ok h => Ok (σ ++ [h])
      | Error _ => Ok σ
      | Panic p => Panic p
      end
  | CallIncrement h val => on_receiver (fun r => Increment r val) h σ
  | CallAtomicIncrement h val => on_receiver (fun r => AtomicIncrement r val) h σ
  | CallClear h => on_receiver Clear h σ
  | CallIncrementFromHistogram h other => IncrementFromHistogram h other σ
  | CallDecrementFromHistogram h other => DecrementFromHistogram h other σ
  | CallCopy h =>
      let* r := deref σ h in
      let* r' := Copy r in
      Ok (σ ++ [r'])
  end.

Fixpoint run (cs : list call) (σ : heap) : result heap :=
  match cs with
  | [] => Ok σ
  | c :: cs' => let* σ' := exec c σ in run cs' σ'
  end.

(** ** [Range] (bucketboundaries.go); [int] is taken to be 64 bits wide *)

(** [a / b] on [int64]: truncated toward zero, wrapping at
    [MinInt64 / -1], panicking on a zero divisor. *)
Definition div64 (a b : Z) : result Z :=
  if b =? 0 then Panic DivideByZero else Ok (wrap64 (a ÷ b)).

Definition Range (start stop step : Z) : result slice :=
  if step =? 0 then Ok None
  else if (step >? 0) && (start >? stop) then Ok None
  else if (step <? 0) && (start <? stop) then Ok None
  else
    let* q := div64 (sub64 stop start) step in
    let length := add64 q 1 in
    let* values := make length in
    let* s := for_range 0 (Z.to_nat length) (fun i s =>
      let* values := slice_set s.1 i s.2 in
      Ok (values, add64 s.2 step)) (values, start) in
    Ok (Some s.1).

(** ** Predicates used to state the properties *)

(** The length invariant of the data model: one more bucket than
    boundaries, in both counter slices. *)
Definition well_formed (h : Histogram) : Prop :=
  length (bucketCounts h) = S (length (bucketBoundaries h)) /\
  length (bucketTotals h) = S (length (bucketBoundaries h)).

(** Every counter holds an [int64]. *)
Definition int64_counters (h : Histogram) : Prop :=
  Forall int64 (bucketCounts h) /\ Forall int64 (bucketTotals h) /\
  int64 (numSamples h) /\ int64 (total h).

(** Every adjacent pair of [b] is strictly increasing. *)
Definition strictly_increasing (b : list Z) : Prop :=
  forall (i : nat) (x y : Z), b !! i = Some x -> b !! S i = Some y -> x < y.

(** The same check as a function, for concrete slices. *)
Fixpoint strictly_increasingb (b : list Z) : bool :=
  match b with
  | x :: t => match t with
              | y :: _ => (x <? y) && strictly_increasingb t
              | [] => true
              end
  | [] => true
  end.

(** Some adjacent pair of [b] is not strictly increasing. *)
Definition has_descent (b : list Z) : Prop :=
  exists (i : nat) (x y : Z), b !! i = Some x /\ b !! S i = Some y /\ x >= y.

(** The lookup rule: [i] is the smallest index in [0, N] whose boundary
    exceeds [val], the boundary at [N] counting as plus infinity. *)
Definition bucket_of (b : list Z) (val : Z) (i : nat) : Prop :=
  (i <= length b)%nat /\
  (forall x, b !! i = Some x -> x > val) /\
  (forall (j : nat) x, (j < i)%nat -> b !! j = Some x -> x <= val).

(** The sum of [f 0], ..., [f (n-1)] accumulated in an [int64] variable. *)
Definition sum_upto (f : Z -> result Z) (n : Z) : result Z :=
  for_range 0 (Z.to_nat n) (fun i acc =>
    let* x := f (Z.of_nat i) in Ok (add64 acc x)) 0.

(** The sum of [BucketCount(i)] for [i] in [0, Size()). *)
Definition sum_BucketCount (h : Histogram) : result Z :=
  let* n := Size h in sum_upto (BucketCount h) n.

(** The sum of [BucketTotal(i)] for [i] in [0, Size()). *)
Definition sum_BucketTotal (h : Histogram) : result Z :=
  let* n := Size h in sum_upto (BucketTotal h) n.

(** The common shape of [IncrementFromHistogram] ([op] is [add64]) and
    [DecrementFromHistogram] ([op] is [sub64]), used to prove facts about
    both at once: the loop body, then the whole method. *)
Definition merge_body (op : Z -> Z -> Z) (h other : ptr) (i : nat) (σ : heap) :
    result heap :=
  let* r := deref σ h in
  let* o := deref σ other in
  let* x := slice_get (bucketCounts r) i in
  let* y := slice_get (bucketCounts o) i in
  let* counts := slice_set (bucketCounts r) i (op x y) in
  let σ := <[h := mkHistogram (bucketBoundaries r) counts (bucketTotals r)
                    (numSamples r) (total r)]> σ in
  let* r := deref σ h in
  let* o := deref σ other in
  let* x := slice_get (bucketTotals r) i in
  let* y := slice_get (bucketTotals o) i in
  let* totals := slice_set (bucketTotals r) i (op x y) in
  Ok (<[h := mkHistogram (bucketBoundaries r) (bucketCounts r) totals
               (numSamples r) (total r)]> σ).

Definition merge_with (op : Z -> Z -> Z) (h other : ptr) (σ : heap) : result heap :=
  let* o := deref σ other in
  let* r := deref σ h in
  if negb (length (bucketBoundaries o) =? length (bucketBoundaries r))%nat then
    Panic (PanicMsg "Mismatch in sizes of  bucketBoundaries")
  else
    let* σ := for_range 0 (length (bucketCounts r)) (merge_body op h other) σ in
    let* r := deref σ h in
    let* o := deref σ other in
    let σ := <[h := mkHistogram (bucketBoundaries r) (bucketCounts r) (bucketTotals r)
                      (op (numSamples r) (numSamples o)) (total r)]> σ in
    let* r := deref σ h in
    let* o := deref σ other in
    Ok (<[h := mkHistogram (bucketBoundaries r) (bucketCounts r) (bucketTotals r)
                 (numSamples r) (op (total r) (total o))]> σ).

(** While a merge runs: from index [start] on, the histogram [o] still
    holds the counters [counts0], [totals0] that [other] had at the call. *)
Definition other_untouched (counts0 totals0 : list Z) (start : nat) (o : Histogram) : Prop :=
  forall j : nat, (start <= j)%nat ->
    bucketCounts o !! j = counts0 !! j /\ bucketTotals o !! j = totals0 !! j.

(** The receiver after a merge, computed from the two records as they were
    before the call. *)
Definition merged (op : Z -> Z -> Z) (r o : Histogram) : Histogram :=
  mkHistogram (bucketBoundaries r)
    (zip_with op (bucketCounts r) (bucketCounts o))
    (zip_with op (bucketTotals r) (bucketTotals o))
    (op (numSamples r) (numSamples o))
    (op (total r) (total o)).

(** The mathematical sum of a list, and the sum accumulated in an [int64]. *)
Definition sumZ (l : list Z) : Z := foldr Z.add 0 l.

Definition sum64 (l : list Z) : Z := wrap64 (sumZ l).

(** The counter invariant of the data model. *)
Definition counters_consistent (h : Histogram) : Prop :=
  numSamples h = sum64 (bucketCounts h) /\ total h = sum64 (bucketTotals h).

(** What the data model asks of one histogram, and of every histogram
    allocated so far. *)
Definition histogram_ok (h : Histogram) : Prop :=
  well_formed h /\ counters_consistent h.

Definition heap_ok (σ : heap) : Prop := Forall histogram_ok σ.

(** A call whose pointers name allocated histograms and, for a merge,
    whose two histograms have as many boundaries. *)
Definition call_valid (c : call) (σ : heap) : Prop :=
  match c with
  | CallNew _ => True
  | CallIncrement h _ | CallAtomicIncrement h _ | CallClear h | CallCopy h =>
      is_Some (σ !! h)
  | CallIncrementFromHistogram h other | CallDecrementFromHistogram h other =>
      exists r o, σ !! h = Some r /\ σ !! other = Some o /\
        length (bucketBoundaries o) = length (bucketBoundaries r)
  end.

(** The round trip as the specification words it: merging [other] into
    [h] and then subtracting [other] again gives [h] back its counters. *)
Definition round_trip_restores (σ : heap) (h other : ptr) : Prop :=
  exists σ1 σ2,
    IncrementFromHistogram h other σ = Ok σ1 /\
    DecrementFromHistogram h other σ1 = Ok σ2 /\
    σ2 !! h = σ !! h.

(** The inputs for which [Range] gives up: a zero step, or a step that
    points away from [stop]. *)
Definition degenerate (start stop step : Z) : bool :=
  (step =? 0) || ((step >? 0) && (start >? stop)) || ((step <? 0) && (start <? stop)).

(** [Range] returns the arithmetic progression of the specification:
    [(stop - start) / step + 1] elements (division truncating toward zero),
    the first being [start], each next one [step] more than the one before. *)
Definition returns_progression (start stop step : Z) : Prop :=
  exists values : list Z,
    Range start stop step = Ok (Some values) /\
    Z.of_nat (length values) = (stop - start) ÷ step + 1 /\
    forall k : nat, (k < length values)%nat ->
      values !! k = Some (start + Z.of_nat k * step).

(** The contract of [Range] as the specification words it. *)
Definition Range_contract (start stop step : Z) : Prop :=
  if degenerate start stop step then Range start stop step = Ok None
  else returns_progression start stop step.

(** ** Further notions, for the properties beyond the ten claims *)

(** The index expression that [Increment] and [AtomicIncrement] share. *)
Definition bucket_index (h : Histogram) (val : Z) : result nat :=
  Search (length (bucketBoundaries h)) (exceeds h val).

(** The histogram a call writes to, if any: the constructor and [Copy]
    allocate and write to no existing histogram. *)
Definition receiver (c : call) : option ptr :=
  match c with
  | CallNew _ | CallCopy _ => None
  | CallIncrement h _ | CallAtomicIncrement h _ | CallClear h => Some h
  | CallIncrementFromHistogram h _ | CallDecrementFromHistogram h _ => Some h
  end.

(** The four [atomic.AddInt64] calls of one [AtomicIncrement], in program
    order, once the index is known; each is an address and a delta. *)
Definition atomic_steps (index : nat) (val : Z) : list (addr * Z) :=
  [(AddrBucketCounts index, 1); (AddrBucketTotals index, val);
   (AddrNumSamples, 1); (AddrTotal, val)].

(** The atomic adds of a schedule taking effect one after the other. *)
Definition run_steps (schedule : list (addr * Z)) (h : Histogram) : Histogram :=
  foldl (fun h s => atomic_AddInt64 s.1 s.2 h) h schedule.

(** The steps of a batch of [AtomicIncrement] calls, thread after thread. *)
Definition batch_steps (indices : list nat) (vals : list Z) : list (addr * Z) :=
  concat (zip_with atomic_steps indices vals).

(** * Properties *)

(** ** The examples of the test file *)

Example New_1234 :
  New (Some [1; 2; 3; 4])
  = Ok (mkHistogram [1; 2; 3; 4] [0; 0; 0; 0; 0] [0; 0; 0; 0; 0] 0 0).
Proof. reflexivity. Qed.

Example New_12334 : New (Some [1; 2; 3; 3; 4]) = Error invalidBoundariesError.
Proof. reflexivity. Qed.

Example New_10_24_1_4 : New (Some [10; 24; 1; 4]) = Error invalidBoundariesError.
Proof. reflexivity. Qed.

Example TestHistogram_counts :
  (let* σ := run [CallNew (Some [1; 2; 3; 4]);
                  CallAtomicIncrement 0%nat 1; CallAtomicIncrement 0%nat 1;
                  CallAtomicIncrement 0%nat 2; CallAtomicIncrement 0%nat 3;
                  CallAtomicIncrement 0%nat 0; CallAtomicIncrement 0%nat 4] [] in
   let* h := deref σ 0%nat in
   Ok (bucketCounts h, numSamples h, total h))
  = Ok ([1; 2; 1; 1; 1], 6, 11).
Proof. vm_compute. reflexivity. Qed.

Example Range_10_1_3 : Range 10 1 3 = Ok None.
Proof. reflexivity. Qed.

Example Range_1_10_neg3 : Range 1 10 (-3) = Ok None.
Proof. reflexivity. Qed.

Example Range_1_10_3 : Range 1 10 3 = Ok (Some [1; 4; 7; 10]).
Proof. vm_compute. reflexivity. Qed.

Example Range_10_1_neg3 : Range 10 1 (-3) = Ok (Some [10; 7; 4; 1]).
Proof. vm_compute. reflexivity. Qed.

(** ** Arithmetic modulo 2^64 *)

Lemma wrap64_int64 z : int64 (wrap64 z).
Proof.
  unfold int64, wrap64, MinInt64, MaxInt64.
  pose proof (Z.mod_pos_bound (z + 2 ^ 63) (2 ^ 64)). lia.
Qed.

Lemma wrap64_id z : int64 z -> wrap64 z = z.
Proof.
  unfold int64, wrap64, MinInt64, MaxInt64. intros Hz.
  rewrite Z.mod_small; lia.
Qed.

Lemma wrap64_add_l a b : wrap64 (wrap64 a + b) = wrap64 (a + b).
Proof.
  unfold wrap64. f_equal.
  replace ((a + 2 ^ 63) mod 2 ^ 64 - 2 ^ 63 + b + 2 ^ 63)
    with ((a + 2 ^ 63) mod 2 ^ 64 + b) by lia.
  rewrite Zplus_mod_idemp_l. f_equal. lia.
Qed.

Lemma wrap64_add_r a b : wrap64 (a + wrap64 b) = wrap64 (a + b).
Proof. rewrite (Z.add_comm a), wrap64_add_l. f_equal. lia. Qed.

Lemma wrap64_sub_l a b : wrap64 (wrap64 a - b) = wrap64 (a - b).
Proof. unfold Z.sub. apply wrap64_add_l. Qed.

Lemma wrap64_sub_r a b : wrap64 (a - wrap64 b) = wrap64 (a - b).
Proof.
  unfold wrap64. f_equal.
  replace (a - ((b + 2 ^ 63) mod 2 ^ 64 - 2 ^ 63) + 2 ^ 63)
    with ((a + 2 ^ 64) - (b + 2 ^ 63) mod 2 ^ 64) by lia.
  rewrite Zminus_mod_idemp_r.
  f_equal. lia.
Qed.

Lemma add64_int64 a b : int64 (add64 a b).
Proof. apply wrap64_int64. Qed.

Lemma sub64_int64 a b : int64 (sub64 a b).
Proof. apply wrap64_int64. Qed.

Lemma sub64_add64 a b : int64 a -> sub64 (add64 a b) b = a.
Proof.
  intros Ha. unfold sub64, add64. rewrite wrap64_sub_l.
  replace (a + b - b) with a by lia. by apply wrap64_id.
Qed.

(** ** The result monad and loops *)

Lemma bind_Ok {A B} (m : result A) (k : A -> result B) b :
  bind m k = Ok b -> exists a, m = Ok a /\ k a = Ok b.
Proof. destruct m; simpl; [eauto | discriminate | discriminate]. Qed.

Lemma slice_get_Ok l i x : slice_get l i = Ok x <-> l !! i = Some x.
Proof. unfold slice_get. destruct (l !! i); split; congruence. Qed.

Lemma slice_set_Ok l i x : (i < length l)%nat -> slice_set l i x = Ok (<[i := x]> l).
Proof.
  intros Hi. unfold slice_set.
  destruct (lookup_lt_is_Some_2 l i Hi) as [y ->]. reflexivity.
Qed.

Lemma slice_getZ_of_nat l (i : nat) : slice_getZ l (Z.of_nat i) = slice_get l i.
Proof.
  unfold slice_getZ. destruct (Z.ltb_spec (Z.of_nat i) 0); [lia |].
  by rewrite Nat2Z.id.
Qed.

Lemma make_Ok (n : nat) : make (Z.of_nat n) = Ok (replicate n 0).
Proof.
  unfold make. destruct (Z.ltb_spec (Z.of_nat n) 0); [lia |].
  by rewrite Nat2Z.id.
Qed.

Lemma copy_full (dst src : list Z) : length dst = length src -> copy dst src = src.
Proof.
  intros Hl. unfold copy. rewrite Hl, Nat.min_id.
  rewrite take_ge by lia. rewrite drop_ge by lia. apply app_nil_r.
Qed.

(** ** Binary search *)

Section SearchSpec.
Variable f : nat -> result bool.
Variable n : nat.
Hypothesis f_total : forall k, (k < n)%nat -> exists b, f k = Ok b.
Hypothesis f_monotone :
  forall k k', (k <= k')%nat -> (k' < n)%nat -> f k = Ok true -> f k' = Ok true.

Lemma div2_between i j :
  (i < j)%nat -> (i <= Nat.div2 (i + j))%nat /\ (Nat.div2 (i + j) < j)%nat.
Proof.
  intros Hij. pose proof (Nat.div2_odd (i + j)) as Hd.
  destruct (Nat.odd (i + j)); simpl in Hd; lia.
Qed.

(** The loop keeps [f] false below [i] and true from [j] on, and stops
    with [i = j]. *)
Lemma Search_loop_spec i j :
  (i <= j)%nat -> (j <= n)%nat ->
  (forall k, (k < i)%nat -> f k = Ok false) ->
  (forall k, (j <= k)%nat -> (k < n)%nat -> f k = Ok true) ->
  exists r, Search_loop f i j = Ok r /\ (i <= r)%nat /\ (r <= j)%nat /\
    (forall k, (k < r)%nat -> f k = Ok false) /\
    (forall k, (r <= k)%nat -> (k < n)%nat -> f k = Ok true).
Proof.
  remember (j - i)%nat as d eqn:Hd. revert i j Hd.
  induction d as [d IH] using lt_wf_ind. intros i j Hd Hij Hjn Hlo Hhi.
  simp Search_loop. destruct (lt_dec i j) as [Hlt | Hge]; simpl.
  - destruct (div2_between i j Hlt) as [Hm1 Hm2].
    destruct (f_total (Nat.div2 (i + j))) as [b Hb]; [lia |].
    rewrite Hb. destruct b; simpl.
    + destruct (IH (Nat.div2 (i + j) - i)%nat ltac:(lia) i (Nat.div2 (i + j)))
        as (r & Hr & ? & ? & ? & ?); try lia; try done.
      * intros k Hk1 Hk2. apply (f_monotone (Nat.div2 (i + j))); auto.
      * exists r. repeat split; auto; lia.
    + destruct (IH (j - S (Nat.div2 (i + j)))%nat ltac:(lia)
                  (S (Nat.div2 (i + j))) j)
        as (r & Hr & ? & ? & ? & ?); try lia; try done.
      * intros k Hk. destruct (f_total k) as [[] Hfk]; [lia | | done].
        rewrite (f_monotone k (Nat.div2 (i + j))) in Hb; [done | lia | lia | done].
      * exists r. repeat split; auto; lia.
  - exists i. repeat split; auto; try lia.
    intros k Hk1 Hk2. apply Hhi; lia.
Qed.

Lemma Search_spec :
  exists r, Search n f = Ok r /\ (r <= n)%nat /\
    (forall k, (k < r)%nat -> f k = Ok false) /\
    (forall k, (r <= k)%nat -> (k < n)%nat -> f k = Ok true).
Proof.
  destruct (Search_loop_spec 0 n) as (r & Hr & _ & ? & ? & ?); try lia.
  exists r. auto.
Qed.
End SearchSpec.

(** ** Bucket lookup *)

Lemma strictly_increasing_lt (b : list Z) (i j : nat) x y :
  strictly_increasing b -> (i < j)%nat ->
  b !! i = Some x -> b !! j = Some y -> x < y.
Proof.
  intros Hb Hij Hx. revert y. induction Hij as [| j Hij IH]; intros y Hy.
  - eapply Hb; eauto.
  - destruct (lookup_lt_is_Some_2 b j) as [z Hz].
    { apply lookup_lt_Some in Hy. lia. }
    specialize (IH z Hz). pose proof (Hb j z y Hz Hy). lia.
Qed.

Lemma bucket_of_unique (b : list Z) val (i j : nat) :
  bucket_of b val i -> bucket_of b val j -> i = j.
Proof.
  intros (Hi & Hgt_i & Hle_i) (Hj & Hgt_j & Hle_j).
  destruct (Nat.lt_trichotomy i j) as [Hlt | [-> | Hlt]]; [| done |].
  - destruct (lookup_lt_is_Some_2 b i) as [x Hx]; [lia |].
    pose proof (Hgt_i x Hx). pose proof (Hle_j i x Hlt Hx). lia.
  - destruct (lookup_lt_is_Some_2 b j) as [x Hx]; [lia |].
    pose proof (Hgt_j x Hx). pose proof (Hle_i j x Hlt Hx). lia.
Qed.

Lemma exceeds_lookup h val (k : nat) x :
  bucketBoundaries h !! k = Some x -> exceeds h val k = Ok (x >? val).
Proof. intros Hx. unfold exceeds, slice_get. by rewrite Hx. Qed.

(** On a sorted boundary slice the search returns the bucket of the lookup
    rule; it never panics. *)
Lemma Search_bucket_of (h : Histogram) (val : Z) :
  strictly_increasing (bucketBoundaries h) ->
  exists i, Search (length (bucketBoundaries h)) (exceeds h val) = Ok i /\
    bucket_of (bucketBoundaries h) val i.
Proof.
  intros Hinc.
  destruct (Search_spec (exceeds h val) (length (bucketBoundaries h)))
    as (r & Hr & Hrn & Hlo & Hhi).
  - intros k Hk. destruct (lookup_lt_is_Some_2 _ _ Hk) as [x Hx].
    rewrite (exceeds_lookup _ _ _ _ Hx). eauto.
  - intros k k' Hkk' Hk'.
    destruct (lookup_lt_is_Some_2 (bucketBoundaries h) k) as [x Hx]; [lia |].
    destruct (lookup_lt_is_Some_2 (bucketBoundaries h) k') as [y Hy]; [lia |].
    rewrite (exceeds_lookup _ _ _ _ Hx), (exceeds_lookup _ _ _ _ Hy).
    intros [= Hgt]. f_equal.
    destruct (decide (k = k')) as [-> | Hne]; [congruence |].
    pose proof (strictly_increasing_lt _ k k' x y Hinc ltac:(lia) Hx Hy). lia.
  - exists r. split; [done |]. repeat split; [done | |].
    + intros x Hx. pose proof (lookup_lt_Some _ _ _ Hx) as Hlt.
      specialize (Hhi r (le_n _) Hlt).
      rewrite (exceeds_lookup _ _ _ _ Hx) in Hhi. injection Hhi. lia.
    + intros j x Hj Hx. specialize (Hlo j Hj).
      rewrite (exceeds_lookup _ _ _ _ Hx) in Hlo. injection Hlo. lia.
Qed.

(** Whatever the boundaries hold, the search stays inside [0, N]. *)
Lemma Search_loop_bound (f : nat -> result bool) (i j r : nat) :
  (i <= j)%nat -> Search_loop f i j = Ok r -> (i <= r)%nat /\ (r <= j)%nat.
Proof.
  remember (j - i)%nat as d eqn:Hd. revert i j Hd.
  induction d as [d IH] using lt_wf_ind. intros i j Hd Hij.
  simp Search_loop. destruct (lt_dec i j) as [Hlt | Hge]; simpl.
  - destruct (div2_between i j Hlt) as [Hm1 Hm2].
    destruct (f (Nat.div2 (i + j))) as [[] | |]; simpl; try discriminate.
    + intros Hr. eapply IH in Hr; [| | reflexivity |]; lia.
    + intros Hr. eapply IH in Hr; [| | reflexivity |]; lia.
  - intros [= <-]. lia.
Qed.

Lemma Search_bound (f : nat -> result bool) (n r : nat) :
  Search n f = Ok r -> (r <= n)%nat.
Proof. intros Hr. apply Search_loop_bound in Hr; lia. Qed.

(** ** Increment *)

Lemma strictly_increasingb_sound (b : list Z) :
  strictly_increasingb b = true -> strictly_increasing b.
Proof.
  induction b as [| x [| y t] IH]; intros Hb i u v Hu Hv.
  - by rewrite lookup_nil in Hu.
  - destruct i; simpl in Hv; by rewrite ?lookup_nil in Hv.
  - simpl in Hb. apply andb_prop in Hb as [Hxy%Z.ltb_lt Ht].
    destruct i as [| i].
    + simplify_eq/=. lia.
    + by apply (IH Ht i).
Qed.

Lemma add64_exact a b : int64 (a + b) -> add64 a b = a + b.
Proof. apply wrap64_id. Qed.

(** C1. On a histogram with strictly increasing boundaries (and the N+1
    counters of the data model), [Increment val] returns normally; with [i]
    the smallest index in [0, N] whose boundary exceeds [val] ([N] when there
    is none), it adds 1 to [bucketCounts[i]], [val] to [bucketTotals[i]], 1
    to the sample count and [val] to the total, each as an [int64] addition
    (the exact sum whenever that sum is an [int64]), and leaves every other
    bucket counter and the boundaries as they were. *)
Theorem Increment_spec (h : Histogram) (val : Z) :
  well_formed h ->
  strictly_increasing (bucketBoundaries h) ->
  exists (i : nat) (h' : Histogram) (c t : Z),
    Increment h val = Ok h' /\
    bucket_of (bucketBoundaries h) val i /\
    bucketCounts h !! i = Some c /\ bucketCounts h' !! i = Some (add64 c 1) /\
    bucketTotals h !! i = Some t /\ bucketTotals h' !! i = Some (add64 t val) /\
    numSamples h' = add64 (numSamples h) 1 /\
    total h' = add64 (total h) val /\
    (forall j : nat, j <> i ->
       bucketCounts h' !! j = bucketCounts h !! j /\
       bucketTotals h' !! j = bucketTotals h !! j) /\
    length (bucketCounts h') = length (bucketCounts h) /\
    length (bucketTotals h') = length (bucketTotals h) /\
    bucketBoundaries h' = bucketBoundaries h /\
    (int64 (c + 1) -> bucketCounts h' !! i = Some (c + 1)) /\
    (int64 (t + val) -> bucketTotals h' !! i = Some (t + val)) /\
    (int64 (numSamples h + 1) -> numSamples h' = numSamples h + 1) /\
    (int64 (total h + val) -> total h' = total h + val).
Proof.
  intros [Hc Ht] Hinc.
  destruct (Search_bucket_of h val Hinc) as (i & Hi & Hb).
  pose proof Hb as (Hle & _ & _).
  destruct (lookup_lt_is_Some_2 (bucketCounts h) i) as [c Hci]; [lia |].
  destruct (lookup_lt_is_Some_2 (bucketTotals h) i) as [t Hti]; [lia |].
  exists i. eexists. exists c, t.
  split.
  { unfold Increment. rewrite Hi. simpl.
    unfold slice_get, slice_set. rewrite Hci, Hti. simpl. reflexivity. }
  simpl. split_and!; try done.
  - apply list_lookup_insert_eq. lia.
  - apply list_lookup_insert_eq. lia.
  - intros j Hj. split; by apply list_lookup_insert_ne.
  - apply length_insert.
  - apply length_insert.
  - intros Hex. rewrite <- (add64_exact c 1 Hex). apply list_lookup_insert_eq. lia.
  - intros Hex. rewrite <- (add64_exact t val Hex). apply list_lookup_insert_eq. lia.
  - apply add64_exact.
  - apply add64_exact.
Qed.

Lemma Increment_spec_witness :
  exists h' : Histogram,
    Increment (mkHistogram [1; 2; 3; 4] [1; 2; 0; 0; 0] [0; 2; 0; 0; 0] 3 2) 3 = Ok h' /\
    numSamples h' = 4 /\ total h' = 5 /\ bucketBoundaries h' = [1; 2; 3; 4].
Proof.
  destruct (Increment_spec
    (mkHistogram [1; 2; 3; 4] [1; 2; 0; 0; 0] [0; 2; 0; 0; 0] 3 2) 3)
    as (i & h' & c & t & Hrun & _ & _ & _ & _ & _ & Hn & Htot & _ & _ & _ & Hb & _).
  - split; reflexivity.
  - by apply strictly_increasingb_sound.
  - exists h'. split_and!; done.
Defined.

(** ** The constructor *)

(** The validation loop of [New] over the pairs [start .. start+count):
    it never indexes out of range, stops with the error at the first
    descent and runs to the end when there is none. *)
Lemma New_loop_spec (b : list Z) (count start : nat) :
  (start + count < length b)%nat \/ count = 0%nat ->
  let body := fun (i : nat) (_ : unit) =>
    let* x := slice_get b i in
    let* y := slice_get b (i + 1) in
    if x >=? y then Error invalidBoundariesError else Ok tt in
  (for_range start count body tt = Ok tt /\
   forall (i : nat) x y, (start <= i < start + count)%nat ->
     b !! i = Some x -> b !! S i = Some y -> x < y) \/
  (for_range start count body tt = Error invalidBoundariesError /\
   exists (i : nat) x y, (start <= i < start + count)%nat /\
     b !! i = Some x /\ b !! S i = Some y /\ x >= y).
Proof.
  intros Hlen body. revert start Hlen.
  induction count as [| count IH]; intros start Hlen.
  - left. split; [done |]. intros. lia.
  - destruct Hlen as [Hlen | ?]; [| done].
    destruct (lookup_lt_is_Some_2 b start) as [x Hx]; [lia |].
    destruct (lookup_lt_is_Some_2 b (S start)) as [y Hy]; [lia |].
    assert (body start tt = if x >=? y then Error invalidBoundariesError else Ok tt)
      as Hbody.
    { unfold body, slice_get.
      replace (start + 1)%nat with (S start) by lia.
      by rewrite Hx, Hy. }
    cbn [for_range]. rewrite Hbody.
    destruct (Z.geb_spec x y) as [Hge | Hlt]; cbn [bind].
    + right. split; [done |]. exists start, x, y. split_and!; try done; lia.
    + destruct (IH (S start)) as [[Hok Hall] | [Herr Hex]]; [lia | |].
      * left. split; [done |]. intros i u v Hi Hu Hv.
        destruct (decide (i = start)) as [-> | Hne].
        -- assert (u = x) by congruence. assert (v = y) by congruence. lia.
        -- apply (Hall i u v); [lia | done | done].
      * right. split; [done |].
        destruct Hex as (i & u & v & Hi & Hu & Hv & Huv).
        exists i, u, v. split_and!; try done; lia.
Qed.

Lemma descent_not_increasing (b : list Z) :
  has_descent b -> strictly_increasing b -> False.
Proof. intros (i & x & y & Hx & Hy & Hge) Hinc. pose proof (Hinc i x y Hx Hy). lia. Qed.

Lemma New_increasing (b : list Z) :
  strictly_increasing b ->
  New (Some b) = Ok (mkHistogram b (replicate (S (length b)) 0)
                       (replicate (S (length b)) 0) 0 0).
Proof.
  intros Hinc. unfold New.
  destruct (New_loop_spec b (length b - 1) 0) as [[-> _] | [_ Hex]].
  - destruct b; simpl; [right; done | left; lia].
  - simpl. replace (Z.of_nat (length b) + 1) with (Z.of_nat (S (length b))) by lia.
    rewrite make_Ok. reflexivity.
  - exfalso. apply (descent_not_increasing b); [| done].
    destruct Hex as (i & x & y & _ & ? & ? & ?). exists i, x, y. done.
Qed.

Lemma New_descent (b : list Z) :
  has_descent b -> New (Some b) = Error invalidBoundariesError.
Proof.
  intros Hd. unfold New.
  destruct (New_loop_spec b (length b - 1) 0) as [[_ Hall] | [-> _]].
  - destruct b; simpl; [right; done | left; lia].
  - exfalso. destruct Hd as (i & x & y & Hx & Hy & Hge).
    pose proof (lookup_lt_Some _ _ _ Hy).
    pose proof (Hall i x y ltac:(lia) Hx Hy). lia.
  - reflexivity.
Qed.

(** C2. [New] returns [emptyError] exactly when the slice is nil (a
    non-nil slice of length zero is accepted); it returns
    [invalidBoundariesError] when some adjacent pair has
    [b[i] >= b[i+1]]; otherwise it returns a histogram over the given
    boundaries whose N+1 bucket counts and N+1 bucket totals are all zero
    and whose sample count and total are zero. *)
Theorem New_spec (bucketBoundaries : slice) :
  (New bucketBoundaries = Error emptyError <-> bucketBoundaries = None) /\
  New (Some []) = Ok (mkHistogram [] [0] [0] 0 0) /\
  (forall b, bucketBoundaries = Some b -> has_descent b ->
     New bucketBoundaries = Error invalidBoundariesError) /\
  (forall b, bucketBoundaries = Some b -> ~ has_descent b ->
     New bucketBoundaries =
       Ok (mkHistogram b (replicate (S (length b)) 0)
             (replicate (S (length b)) 0) 0 0)).
Proof.
  split_and!.
  - split; [| by intros ->].
    destruct bucketBoundaries as [b |]; [| done].
    intros Hnew. exfalso. unfold New in Hnew.
    destruct (New_loop_spec b (length b - 1) 0) as [[Hok _] | [Herr _]].
    + destruct b; simpl; [right; done | left; lia].
    + rewrite Hok in Hnew. simpl in Hnew.
      replace (Z.of_nat (length b) + 1) with (Z.of_nat (S (length b))) in Hnew by lia.
      rewrite make_Ok in Hnew. discriminate.
    + rewrite Herr in Hnew. discriminate.
  - reflexivity.
  - intros b -> Hd. by apply New_descent.
  - intros b -> Hnd. apply New_increasing.
    intros i x y Hx Hy. destruct (Z.lt_ge_cases x y) as [| Hge]; [done |].
    exfalso. apply Hnd. exists i, x, y. split_and!; [done | done | lia].
Qed.

Lemma New_spec_witness :
  New (Some [1; 2; 3; 3; 4]) = Error invalidBoundariesError /\
  New (Some [-5; 0; 7]) = Ok (mkHistogram [-5; 0; 7] [0; 0; 0; 0] [0; 0; 0; 0] 0 0).
Proof.
  split.
  - destruct (New_spec (Some [1; 2; 3; 3; 4])) as (_ & _ & Hdescent & _).
    apply (Hdescent [1; 2; 3; 3; 4]); [done |].
    exists 2%nat, 3, 3. split_and!; [done | done | lia].
  - destruct (New_spec (Some [-5; 0; 7])) as (_ & _ & _ & Hsorted).
    apply (Hsorted [-5; 0; 7]); [done |].
    intros Hd. apply (descent_not_increasing _ Hd).
    by apply strictly_increasingb_sound.
Defined.

(** ** Bucket ranges *)

(** C6. With N >= 1 boundaries, [BucketRanges 0] is
    [(MinInt64, boundaries[0])], [BucketRanges N] is
    [(boundaries[N-1], MaxInt64)], an interior index [0 < i < N] gives
    [(boundaries[i-1], boundaries[i])], and an index outside [0, N] panics. *)
Theorem BucketRanges_spec (h : Histogram) :
  (1 <= length (bucketBoundaries h))%nat ->
  let N := length (bucketBoundaries h) in
  (exists first, bucketBoundaries h !! 0%nat = Some first /\
     BucketRanges h 0 = Ok (MinInt64, first)) /\
  (exists last, bucketBoundaries h !! (N - 1)%nat = Some last /\
     BucketRanges h (Z.of_nat N) = Ok (last, MaxInt64)) /\
  (forall i : nat, (0 < i < N)%nat ->
     exists lo hi, bucketBoundaries h !! (i - 1)%nat = Some lo /\
       bucketBoundaries h !! i = Some hi /\
       BucketRanges h (Z.of_nat i) = Ok (lo, hi)) /\
  (forall index : Z, index < 0 \/ index > Z.of_nat N ->
     BucketRanges h index = Panic (PanicMsg "index out of bound")).
Proof.
  intros HN N. split_and!.
  - destruct (lookup_lt_is_Some_2 (bucketBoundaries h) 0) as [x Hx]; [lia |].
    exists x. split; [done |]. unfold BucketRanges. fold N.
    destruct (Z.gtb_spec 0 (Z.of_nat N)); [lia |].
    simpl. unfold slice_getZ, slice_get. simpl. by rewrite Z2Nat.inj_0, Hx.
  - destruct (lookup_lt_is_Some_2 (bucketBoundaries h) (N - 1)) as [x Hx]; [lia |].
    exists x. split; [done |]. unfold BucketRanges. fold N.
    destruct (Z.ltb_spec (Z.of_nat N) 0); [lia |].
    destruct (Z.gtb_spec (Z.of_nat N) (Z.of_nat N)); [lia |].
    destruct (Z.eqb_spec (Z.of_nat N) 0); [lia |].
    rewrite Z.eqb_refl. simpl.
    replace (Z.of_nat N - 1) with (Z.of_nat (N - 1)) by lia.
    rewrite slice_getZ_of_nat. unfold slice_get. by rewrite Hx.
  - intros i Hi.
    destruct (lookup_lt_is_Some_2 (bucketBoundaries h) (i - 1)) as [lo Hlo]; [lia |].
    destruct (lookup_lt_is_Some_2 (bucketBoundaries h) i) as [hi Hhi]; [lia |].
    exists lo, hi. split_and!; [done | done |]. unfold BucketRanges. fold N.
    destruct (Z.ltb_spec (Z.of_nat i) 0); [lia |].
    destruct (Z.gtb_spec (Z.of_nat i) (Z.of_nat N)); [lia |].
    destruct (Z.eqb_spec (Z.of_nat i) 0); [lia |].
    destruct (Z.eqb_spec (Z.of_nat i) (Z.of_nat N)); [lia |]. simpl.
    replace (Z.of_nat i - 1) with (Z.of_nat (i - 1)) by lia.
    rewrite !slice_getZ_of_nat. unfold slice_get. by rewrite Hlo, Hhi.
  - intros index Hout. unfold BucketRanges. fold N.
    destruct (Z.ltb_spec index 0); [done |].
    destruct (Z.gtb_spec index (Z.of_nat N)); [done | lia].
Qed.

Lemma BucketRanges_spec_witness :
  BucketRanges (mkHistogram [1; 2; 3; 4] [0; 0; 0; 0; 0] [0; 0; 0; 0; 0] 0 0) 0
    = Ok (MinInt64, 1) /\
  BucketRanges (mkHistogram [1; 2; 3; 4] [0; 0; 0; 0; 0] [0; 0; 0; 0; 0] 0 0) 5
    = Panic (PanicMsg "index out of bound").
Proof.
  pose proof (BucketRanges_spec
    (mkHistogram [1; 2; 3; 4] [0; 0; 0; 0; 0] [0; 0; 0; 0; 0] 0 0)
    ltac:(simpl; lia)) as (Hfirst & _ & _ & Hout).
  split.
  - destruct Hfirst as (first & Hlookup & ->). simpl in Hlookup.
    injection Hlookup as <-. reflexivity.
  - apply Hout. simpl. lia.
Defined.

(** C10. The constructor accepts the empty, non-nil boundary slice; the
    histogram it returns has [Size() = 1], and [BucketRanges 0] on it gets
    past the method's own bound check and then panics on indexing position 0
    of the empty boundary slice. *)
Theorem BucketRanges_empty_boundaries :
  exists h : Histogram,
    New (Some []) = Ok h /\
    Size h = Ok 1 /\
    (0 <? 0) || (0 >? Z.of_nat (length (bucketBoundaries h))) = false /\
    BucketRanges h 0 = Panic IndexOutOfRange.
Proof. eexists. split_and!; reflexivity. Qed.

(** ** Atomic increment, run sequentially *)

Lemma AtomicIncrement_unfold (h : Histogram) (val : Z) :
  AtomicIncrement h val = Increment h val.
Proof.
  unfold AtomicIncrement, Increment.
  destruct (Search (length (bucketBoundaries h)) (exceeds h val)) as [i | e | p];
    simpl; [| done | done].
  unfold addr_of_elem, slice_get, slice_set.
  destruct (bucketCounts h !! i) as [c |] eqn:Hc; simpl; [| done].
  destruct (bucketTotals h !! i) as [t |] eqn:Ht; simpl; [| done].
  unfold atomic_AddInt64. simpl. rewrite Hc, Ht. reflexivity.
Qed.

(** C8. Run by a single thread, [AtomicIncrement val] and [Increment val]
    agree on every histogram: same bucket index, same four counter updates,
    same resulting state, and a panic in one is the same panic in the
    other. *)
Theorem AtomicIncrement_Increment (h : Histogram) (val : Z) :
  AtomicIncrement h val = Increment h val /\
  (forall (σ : heap) (p : ptr),
     exec (CallAtomicIncrement p val) σ = exec (CallIncrement p val) σ) /\
  (forall h', AtomicIncrement h val = Ok h' ->
     exists index : nat,
       Search (length (bucketBoundaries h)) (exceeds h val) = Ok index /\
       h' = atomic_AddInt64 AddrTotal val
              (atomic_AddInt64 AddrNumSamples 1
                 (atomic_AddInt64 (AddrBucketTotals index) val
                    (atomic_AddInt64 (AddrBucketCounts index) 1 h)))).
Proof.
  split_and!.
  - apply AtomicIncrement_unfold.
  - intros σ p. simpl. unfold on_receiver.
    destruct (deref σ p) as [r | |]; simpl; [| done | done].
    by rewrite AtomicIncrement_unfold.
  - unfold AtomicIncrement. intros h' Hrun.
    apply bind_Ok in Hrun as (index & Hs & Hrun). exists index. split; [done |].
    unfold addr_of_elem in Hrun.
    destruct (bucketCounts h !! index); simpl in Hrun; [| done].
    destruct (bucketTotals h !! index); simpl in Hrun; [| done].
    by injection Hrun as <-.
Qed.

(** ** Averages *)

Lemma float64_0 : float64 0 = 0%float.
Proof. reflexivity. Qed.

Lemma BucketAverage_zero_count (h : Histogram) (index : Z) :
  BucketCount h index = Ok 0 -> BucketAverage h index = Ok 0%float.
Proof.
  intros Hc. unfold BucketAverage. unfold BucketCount in Hc.
  rewrite Hc. reflexivity.
Qed.

Lemma Average_zero_samples (h : Histogram) :
  numSamples h = 0 -> Average h = 0%float.
Proof. intros Hn. unfold Average. rewrite Hn. apply float64_0. Qed.

(** C9. For an index at which [bucketCounts[index]] reads 0,
    [BucketAverage index] returns 0 without a panic; when the sample count
    is 0, [Average] returns 0. *)
Theorem averages_zero_default (h : Histogram) :
  (forall index : Z, BucketCount h index = Ok 0 ->
     BucketAverage h index = Ok 0%float) /\
  (Count h = 0 -> Average h = 0%float).
Proof.
  split.
  - intros index. apply BucketAverage_zero_count.
  - apply Average_zero_samples.
Qed.

Lemma averages_zero_default_witness :
  BucketAverage (mkHistogram [10] [0; 2] [0; 25] 2 25) 0 = Ok 0%float /\
  BucketAverage (mkHistogram [10] [0; 2] [0; 25] 2 25) 1 = Ok 12.5%float /\
  Average (mkHistogram [10] [0; 0] [0; 0] 0 0) = 0%float.
Proof.
  split_and!.
  - by apply (proj1 (averages_zero_default (mkHistogram [10] [0; 2] [0; 25] 2 25))).
  - vm_compute. reflexivity.
  - by apply (proj2 (averages_zero_default (mkHistogram [10] [0; 0] [0; 0] 0 0))).
Defined.

(** ** Clear *)

(** The loop of [Clear] over the buckets [start .. start+count). *)
Lemma Clear_loop_spec (count start : nat) (h : Histogram) :
  (start + count <= length (bucketCounts h))%nat ->
  length (bucketCounts h) = length (bucketTotals h) ->
  let body := fun (i : nat) (h : Histogram) =>
    let* counts := slice_set (bucketCounts h) i 0 in
    let* totals := slice_set (bucketTotals h) i 0 in
    Ok (mkHistogram (bucketBoundaries h) counts totals 0 0) in
  exists h', for_range start count body h = Ok h' /\
    bucketBoundaries h' = bucketBoundaries h /\
    length (bucketCounts h') = length (bucketCounts h) /\
    length (bucketTotals h') = length (bucketTotals h) /\
    (forall j : nat, (start <= j < start + count)%nat ->
       bucketCounts h' !! j = Some 0 /\ bucketTotals h' !! j = Some 0) /\
    (forall j : nat, ~ (start <= j < start + count)%nat ->
       bucketCounts h' !! j = bucketCounts h !! j /\
       bucketTotals h' !! j = bucketTotals h !! j) /\
    ((0 < count)%nat -> numSamples h' = 0 /\ total h' = 0).
Proof.
  intros Hlen Heq body. revert start h Hlen Heq.
  induction count as [| count IH]; intros start h Hlen Heq.
  - exists h. split_and!; try done; lia.
  - cbn [for_range].
    assert (body start h = Ok (mkHistogram (bucketBoundaries h)
              (<[start := 0]> (bucketCounts h)) (<[start := 0]> (bucketTotals h)) 0 0))
      as ->.
    { unfold body. rewrite !slice_set_Ok by lia. reflexivity. }
    cbn [bind].
    destruct (IH (S start) (mkHistogram (bucketBoundaries h)
                (<[start := 0]> (bucketCounts h)) (<[start := 0]> (bucketTotals h)) 0 0))
      as (h' & Hrun & Hb & Hlc & Hlt & Hin & Hout & Hscal).
    { simpl. rewrite length_insert. lia. }
    { simpl. rewrite !length_insert. done. }
    simpl in *. rewrite length_insert in Hlc, Hlt.
    exists h'. split_and!; try done.
    + intros j Hj. destruct (decide (j = start)) as [-> | Hne].
      * destruct (Hout start ltac:(lia)) as [-> ->].
        rewrite !list_lookup_insert_eq by lia. done.
      * apply Hin. lia.
    + intros j Hj. destruct (Hout j ltac:(lia)) as [-> ->].
      rewrite !list_lookup_insert_ne by lia. done.
    + intros _. destruct count as [| count].
      * simpl in Hrun. by injection Hrun as <-.
      * apply Hscal. lia.
Qed.

Lemma lookup_all_zero (l : list Z) :
  (forall j : nat, (j < length l)%nat -> l !! j = Some 0) ->
  l = replicate (length l) 0.
Proof.
  intros Hall. apply list_eq. intros j.
  destruct (decide (j < length l)%nat) as [Hj | Hj].
  - rewrite Hall by done. symmetry. by apply lookup_replicate_2.
  - rewrite lookup_ge_None_2 by lia. symmetry.
    apply lookup_ge_None_2. rewrite length_replicate. lia.
Qed.

(** C7. On a histogram of the data model (N+1 counters in both slices),
    [Clear] returns normally, sets every bucket count, every bucket total,
    the sample count and the total to zero and leaves the boundaries and
    [Size()] as they were; every read after it returns zero. *)
Theorem Clear_spec (h : Histogram) :
  well_formed h ->
  exists h', Clear h = Ok h' /\
    bucketBoundaries h' = bucketBoundaries h /\
    Size h' = Size h /\
    Size h' = Ok (Z.of_nat (length (bucketBoundaries h)) + 1) /\
    bucketCounts h' = replicate (S (length (bucketBoundaries h))) 0 /\
    bucketTotals h' = replicate (S (length (bucketBoundaries h))) 0 /\
    numSamples h' = 0 /\ total h' = 0 /\
    Count h' = 0 /\ Total h' = 0 /\ Average h' = 0%float /\
    (forall index : Z, 0 <= index <= Z.of_nat (length (bucketBoundaries h)) ->
       BucketCount h' index = Ok 0 /\ BucketTotal h' index = Ok 0 /\
       BucketAverage h' index = Ok 0%float).
Proof.
  intros [Hc Ht].
  destruct (Clear_loop_spec (length (bucketCounts h)) 0 h)
    as (h' & Hrun & Hb & Hlc & Hlt & Hin & _ & Hscal); [lia | congruence |].
  destruct Hscal as [Hn Htot]; [lia |].
  assert (bucketCounts h' = replicate (S (length (bucketBoundaries h))) 0) as Hcz.
  { rewrite <- Hc, <- Hlc. apply lookup_all_zero. intros j Hj. apply Hin. lia. }
  assert (bucketTotals h' = replicate (S (length (bucketBoundaries h))) 0) as Htz.
  { rewrite <- Ht, <- Hlt. apply lookup_all_zero. intros j Hj. apply Hin. lia. }
  assert (Size h' = Ok (Z.of_nat (length (bucketBoundaries h)) + 1)) as Hsize.
  { unfold Size. rewrite Hlc, Hlt, Hc, Ht, Nat.eqb_refl. simpl. f_equal. lia. }
  exists h'. split_and!; try done.
  - unfold Clear. replace (length (bucketTotals h)) with (length (bucketCounts h)) by lia.
    rewrite Nat.eqb_refl. exact Hrun.
  - rewrite Hsize. unfold Size. rewrite Hc, Ht, Nat.eqb_refl. simpl. f_equal. lia.
  - by apply Average_zero_samples.
  - intros index Hi.
    assert (BucketCount h' index = Ok 0) as Hbc.
    { unfold BucketCount. rewrite <- (Z2Nat.id index) by lia.
      rewrite slice_getZ_of_nat. apply slice_get_Ok. rewrite Hcz.
      apply lookup_replicate_2. lia. }
    split_and!; [done | |].
    + unfold BucketTotal. rewrite <- (Z2Nat.id index) by lia.
      rewrite slice_getZ_of_nat. apply slice_get_Ok. rewrite Htz.
      apply lookup_replicate_2. lia.
    + by apply BucketAverage_zero_count.
Qed.

Lemma Clear_spec_witness :
  exists h',
    Clear (mkHistogram [10; 20] [8; 0; 12] [20; 0; 92] 20 112) = Ok h' /\
    bucketBoundaries h' = [10; 20] /\ Size h' = Ok 3 /\
    bucketCounts h' = [0; 0; 0] /\ bucketTotals h' = [0; 0; 0] /\
    Count h' = 0 /\ Total h' = 0.
Proof.
  destruct (Clear_spec (mkHistogram [10; 20] [8; 0; 12] [20; 0; 92] 20 112))
    as (h' & Hrun & Hb & _ & Hsize & Hc & Ht & _ & _ & Hn & Htot & _).
  - split; reflexivity.
  - exists h'. split_and!; done.
Defined.

(** ** Merging one histogram into another *)

Lemma IncrementFromHistogram_merge_with :
  IncrementFromHistogram = merge_with add64.
Proof. reflexivity. Qed.

Lemma DecrementFromHistogram_merge_with :
  DecrementFromHistogram = merge_with sub64.
Proof. reflexivity. Qed.

Lemma deref_Ok (σ : heap) (p : ptr) (r : Histogram) :
  σ !! p = Some r -> deref σ p = Ok r.
Proof. intros Hp. unfold deref. by rewrite Hp. Qed.

Lemma deref_insert_eq (σ : heap) (p : ptr) (r r' : Histogram) :
  σ !! p = Some r -> deref (<[p := r']> σ) p = Ok r'.
Proof.
  intros Hp. apply deref_Ok, list_lookup_insert_eq. by eapply lookup_lt_Some.
Qed.

Lemma deref_insert_ne (σ : heap) (p q : ptr) (r' : Histogram) :
  p <> q -> deref (<[p := r']> σ) q = deref σ q.
Proof. intros Hne. unfold deref. by rewrite list_lookup_insert_ne. Qed.

Section MergeLoop.
Variable op : Z -> Z -> Z.
Variables h other : ptr.
Variables counts0 totals0 : list Z.

Lemma merge_body_step (σ : heap) (r o : Histogram) (i : nat) x y x' y' :
  σ !! h = Some r -> σ !! other = Some o ->
  other_untouched counts0 totals0 i o ->
  bucketCounts r !! i = Some x -> counts0 !! i = Some y ->
  bucketTotals r !! i = Some x' -> totals0 !! i = Some y' ->
  merge_body op h other i σ =
    Ok (<[h := mkHistogram (bucketBoundaries r)
                 (<[i := op x y]> (bucketCounts r))
                 (<[i := op x' y']> (bucketTotals r))
                 (numSamples r) (total r)]> σ).
Proof.
  intros Hr Ho Hun Hx Hy Hx' Hy'.
  destruct (Hun i (le_n _)) as [Hoc Hot]. rewrite Hy in Hoc. rewrite Hy' in Hot.
  unfold merge_body. rewrite (deref_Ok _ _ _ Hr), (deref_Ok _ _ _ Ho). cbn [bind].
  rewrite (proj2 (slice_get_Ok _ _ _) Hx), (proj2 (slice_get_Ok _ _ _) Hoc).
  cbn [bind]. rewrite slice_set_Ok by (by eapply lookup_lt_Some). cbn [bind].
  rewrite (deref_insert_eq _ _ _ _ Hr). cbn [bind bucketTotals].
  destruct (decide (h = other)) as [Heq | Hne].
  - assert (o = r) as -> by (rewrite <- Heq in Ho; congruence).
    rewrite <- Heq, (deref_insert_eq _ _ _ _ Hr). cbn [bind bucketTotals].
    rewrite (proj2 (slice_get_Ok _ _ _) Hx'). cbn [bind].
    rewrite slice_set_Ok by (by eapply lookup_lt_Some). cbn [bind].
    assert (y' = x') as -> by congruence.
    by rewrite list_insert_insert_eq.
  - rewrite (deref_insert_ne _ _ _ _ Hne), (deref_Ok _ _ _ Ho). cbn [bind].
    rewrite (proj2 (slice_get_Ok _ _ _) Hx'), (proj2 (slice_get_Ok _ _ _) Hot).
    cbn [bind]. rewrite slice_set_Ok by (by eapply lookup_lt_Some). cbn [bind].
    by rewrite list_insert_insert_eq.
Qed.

(** The loop of a merge over the buckets [start .. start+count): it only
    rewrites the record at [h], bucket by bucket, from the counters [other]
    had at the call. *)
Lemma merge_loop_spec (count start : nat) (σ : heap) (r o : Histogram) :
  σ !! h = Some r -> σ !! other = Some o ->
  other_untouched counts0 totals0 start o ->
  (start + count <= length (bucketCounts r))%nat ->
  length (bucketCounts r) = length (bucketTotals r) ->
  (length (bucketCounts r) <= length counts0)%nat ->
  (length (bucketCounts r) <= length totals0)%nat ->
  exists r', for_range start count (merge_body op h other) σ = Ok (<[h := r']> σ) /\
    bucketBoundaries r' = bucketBoundaries r /\
    numSamples r' = numSamples r /\ total r' = total r /\
    length (bucketCounts r') = length (bucketCounts r) /\
    length (bucketTotals r') = length (bucketTotals r) /\
    (forall (j : nat) x y, (start <= j < start + count)%nat ->
       bucketCounts r !! j = Some x -> counts0 !! j = Some y ->
       bucketCounts r' !! j = Some (op x y)) /\
    (forall (j : nat) x y, (start <= j < start + count)%nat ->
       bucketTotals r !! j = Some x -> totals0 !! j = Some y ->
       bucketTotals r' !! j = Some (op x y)) /\
    (forall j : nat, ~ (start <= j < start + count)%nat ->
       bucketCounts r' !! j = bucketCounts r !! j /\
       bucketTotals r' !! j = bucketTotals r !! j).
Proof.
  revert start σ r o. induction count as [| count IH];
    intros start σ r o Hr Ho Hun Hlen Heq Hc0 Ht0.
  - exists r. cbn [for_range]. rewrite list_insert_id by done.
    split_and!; try done; intros; lia.
  - destruct (lookup_lt_is_Some_2 (bucketCounts r) start) as [x Hx]; [lia |].
    destruct (lookup_lt_is_Some_2 (bucketTotals r) start) as [x' Hx']; [lia |].
    destruct (lookup_lt_is_Some_2 counts0 start) as [y Hy]; [lia |].
    destruct (lookup_lt_is_Some_2 totals0 start) as [y' Hy']; [lia |].
    cbn [for_range].
    rewrite (merge_body_step σ r o start x y x' y') by done. cbn [bind].
    set (r1 := mkHistogram (bucketBoundaries r) (<[start := op x y]> (bucketCounts r))
                 (<[start := op x' y']> (bucketTotals r)) (numSamples r) (total r)).
    assert ((<[h := r1]> σ) !! h = Some r1) as Hr1.
    { apply list_lookup_insert_eq. by eapply lookup_lt_Some. }
    assert (exists o1, (<[h := r1]> σ) !! other = Some o1 /\
              other_untouched counts0 totals0 (S start) o1) as (o1 & Ho1 & Hun1).
    { destruct (decide (h = other)) as [Heq' | Hne].
      - exists r1. split; [by rewrite <- Heq' |].
        assert (o = r) as -> by (rewrite <- Heq' in Ho; congruence).
        intros j Hj. destruct (Hun j ltac:(lia)) as [<- <-].
        subst r1. simpl. rewrite !list_lookup_insert_ne by lia. done.
      - exists o. split; [by rewrite list_lookup_insert_ne |].
        intros j Hj. apply Hun. lia. }
    destruct (IH (S start) (<[h := r1]> σ) r1 o1)
      as (r' & Hrun & Hb & Hn & Htot & Hlc & Hlt & Hinc & Hint & Hout); try done.
    { subst r1. simpl. rewrite length_insert. lia. }
    { subst r1. simpl. by rewrite !length_insert. }
    { subst r1. simpl. by rewrite length_insert. }
    { subst r1. simpl. by rewrite length_insert. }
    exists r'. rewrite Hrun, list_insert_insert_eq.
    subst r1. simpl in *. rewrite length_insert in Hlc, Hlt.
    split_and!; try done.
    + intros j u v Hj Hu Hv. destruct (decide (j = start)) as [-> | Hne].
      * destruct (Hout start ltac:(lia)) as [-> _].
        rewrite list_lookup_insert_eq by lia. congruence.
      * apply Hinc; [lia | | done]. by rewrite list_lookup_insert_ne.
    + intros j u v Hj Hu Hv. destruct (decide (j = start)) as [-> | Hne].
      * destruct (Hout start ltac:(lia)) as [_ ->].
        rewrite list_lookup_insert_eq by lia. congruence.
      * apply Hint; [lia | | done]. by rewrite list_lookup_insert_ne.
    + intros j Hj. destruct (Hout j ltac:(lia)) as [-> ->].
      rewrite !list_lookup_insert_ne by lia. done.
Qed.
End MergeLoop.

Lemma zip_with_lookups (op : Z -> Z -> Z) (l l0 l' : list Z) :
  length l' = length l -> (length l <= length l0)%nat ->
  (forall (j : nat) x y, (j < length l)%nat ->
     l !! j = Some x -> l0 !! j = Some y -> l' !! j = Some (op x y)) ->
  l' = zip_with op l l0.
Proof.
  intros Hlen Hle Hall. apply list_eq. intros j. rewrite lookup_zip_with.
  destruct (decide (j < length l)%nat) as [Hj | Hj].
  - destruct (lookup_lt_is_Some_2 l j Hj) as [x Hx].
    destruct (lookup_lt_is_Some_2 l0 j ltac:(lia)) as [y Hy].
    rewrite Hx, Hy. simpl. by apply Hall.
  - rewrite (lookup_ge_None_2 l) by lia. simpl. apply lookup_ge_None_2. lia.
Qed.

(** A merge between two histograms of the data model with as many
    boundaries returns normally and replaces the receiver by [merged]; the
    two pointers may be equal. *)
Lemma merge_with_spec (op : Z -> Z -> Z) (h other : ptr) (σ : heap) (r o : Histogram) :
  σ !! h = Some r -> σ !! other = Some o ->
  length (bucketBoundaries o) = length (bucketBoundaries r) ->
  well_formed r -> well_formed o ->
  merge_with op h other σ = Ok (<[h := merged op r o]> σ).
Proof.
  intros Hr Ho Hlen [Hrc Hrt] [Hoc Hot].
  destruct (merge_loop_spec op h other (bucketCounts o) (bucketTotals o)
              (length (bucketCounts r)) 0 σ r o)
    as (r' & Hrun & Hb & Hn & Htot & Hlc & Hlt & Hinc & Hint & _);
    try done; try lia.
  assert (bucketCounts r' = zip_with op (bucketCounts r) (bucketCounts o)) as Hcz.
  { apply zip_with_lookups; [done | lia |]. intros j x y Hj. apply Hinc. lia. }
  assert (bucketTotals r' = zip_with op (bucketTotals r) (bucketTotals o)) as Htz.
  { apply zip_with_lookups; [done | lia |]. intros j x y Hj. apply Hint. lia. }
  assert (h < length σ)%nat as Hh by (by eapply lookup_lt_Some).
  unfold merge_with. rewrite (deref_Ok _ _ _ Hr), (deref_Ok _ _ _ Ho). cbn [bind].
  rewrite Hlen, Nat.eqb_refl. cbn [negb]. rewrite Hrun. cbn [bind].
  rewrite (deref_insert_eq _ _ _ _ Hr). cbn [bind].
  destruct (decide (h = other)) as [Heq | Hne].
  - assert (o = r) as -> by (rewrite <- Heq in Ho; congruence).
    rewrite <- Heq. rewrite (deref_insert_eq _ _ _ _ Hr). cbn [bind].
    rewrite !list_insert_insert_eq.
    rewrite (deref_insert_eq _ _ _ _ Hr). cbn [bind numSamples total bucketCounts
      bucketTotals bucketBoundaries].
    rewrite list_insert_insert_eq. unfold merged.
    by rewrite Hb, Hcz, Htz, Hn, Htot.
  - rewrite (deref_insert_ne _ _ _ _ Hne), (deref_Ok _ _ _ Ho). cbn [bind].
    rewrite !list_insert_insert_eq.
    rewrite (deref_insert_eq _ _ _ _ Hr), (deref_insert_ne _ _ _ _ Hne),
      (deref_Ok _ _ _ Ho).
    cbn [bind numSamples total bucketCounts bucketTotals bucketBoundaries].
    rewrite list_insert_insert_eq. unfold merged.
    by rewrite Hb, Hcz, Htz, Hn, Htot.
Qed.

Lemma zip_sub64_add64 (l l0 : list Z) :
  Forall int64 l -> (length l <= length l0)%nat ->
  zip_with sub64 (zip_with add64 l l0) l0 = l.
Proof.
  intros Hl. revert l0. induction Hl as [| x l Hx Hl IH]; intros [| y l0] Hlen;
    simpl in *; try done; try lia.
  rewrite sub64_add64 by done. f_equal. apply IH. lia.
Qed.

Lemma merged_well_formed (op : Z -> Z -> Z) (r o : Histogram) :
  length (bucketBoundaries o) = length (bucketBoundaries r) ->
  well_formed r -> well_formed o -> well_formed (merged op r o).
Proof.
  intros Hlen [Hrc Hrt] [Hoc Hot]. unfold well_formed, merged. simpl.
  rewrite !length_zip_with. lia.
Qed.

Lemma merged_round_trip (r o : Histogram) :
  length (bucketBoundaries o) = length (bucketBoundaries r) ->
  well_formed r -> well_formed o -> int64_counters r ->
  merged sub64 (merged add64 r o) o = r.
Proof.
  intros Hlen [Hrc Hrt] [Hoc Hot] (Hc & Ht & Hn & Htot).
  destruct r as [bb counts totals n tot]. unfold merged. simpl in *.
  rewrite !zip_sub64_add64 by (done || lia).
  by rewrite !sub64_add64.
Qed.

(** C4 (amended). For a target [h] and a source [other] that is a
    different histogram, with as many boundaries, merging the source in and
    then subtracting it again returns normally both times and leaves the heap,
    hence every bucket count, every bucket total, the sample count and the
    total of the target, exactly as before the two calls. *)
Theorem merge_round_trip (σ : heap) (h other : ptr) (r o : Histogram) :
  h <> other ->
  σ !! h = Some r -> σ !! other = Some o ->
  length (bucketBoundaries o) = length (bucketBoundaries r) ->
  well_formed r -> well_formed o -> int64_counters r ->
  exists σ1,
    IncrementFromHistogram h other σ = Ok σ1 /\
    DecrementFromHistogram h other σ1 = Ok σ /\
    round_trip_restores σ h other.
Proof.
  intros Hne Hr Ho Hlen Hwr Hwo Hint.
  assert (h < length σ)%nat as Hh by (by eapply lookup_lt_Some).
  assert (IncrementFromHistogram h other σ = Ok (<[h := merged add64 r o]> σ)) as Hinc.
  { rewrite IncrementFromHistogram_merge_with. by apply merge_with_spec. }
  assert (DecrementFromHistogram h other (<[h := merged add64 r o]> σ) = Ok σ) as Hdec.
  { rewrite DecrementFromHistogram_merge_with.
    rewrite (merge_with_spec sub64 h other _ (merged add64 r o) o).
    - rewrite list_insert_insert_eq, merged_round_trip by done.
      by rewrite list_insert_id.
    - by apply list_lookup_insert_eq.
    - by rewrite list_lookup_insert_ne.
    - done.
    - by apply merged_well_formed.
    - done. }
  exists (<[h := merged add64 r o]> σ). split_and!; [done | done |].
  exists (<[h := merged add64 r o]> σ), σ. done.
Qed.

Lemma merge_round_trip_witness :
  round_trip_restores
    [mkHistogram [10] [1; 2] [5; 30] 3 35; mkHistogram [20] [4; 1] [7; 21] 5 28]
    0%nat 1%nat.
Proof.
  destruct (merge_round_trip
    [mkHistogram [10] [1; 2] [5; 30] 3 35; mkHistogram [20] [4; 1] [7; 21] 5 28]
    0%nat 1%nat
    (mkHistogram [10] [1; 2] [5; 30] 3 35) (mkHistogram [20] [4; 1] [7; 21] 5 28))
    as (σ1 & _ & _ & Hrt); try done.
  repeat split; simpl; repeat constructor; unfold int64, MinInt64, MaxInt64; lia.
Defined.

(** C4 as stated fails when the source is the target itself: the merge
    doubles every counter of the histogram and the subtraction then takes
    the doubled histogram from itself, leaving zeros. *)
Lemma round_trip_self_counterexample :
  (let* σ1 := IncrementFromHistogram 0%nat 0%nat [mkHistogram [10] [1; 2] [5; 30] 3 35] in
   DecrementFromHistogram 0%nat 0%nat σ1)
    = Ok [mkHistogram [10] [0; 0] [0; 0] 0 0] /\
  ~ round_trip_restores [mkHistogram [10] [1; 2] [5; 30] 3 35] 0%nat 0%nat.
Proof.
  split; [vm_compute; reflexivity |].
  intros (σ1 & σ2 & Hinc & Hdec & Hsame).
  vm_compute in Hinc. injection Hinc as <-.
  vm_compute in Hdec. injection Hdec as <-.
  discriminate Hsame.
Qed.

(** ** The counter invariant *)

Lemma sumZ_insert (l : list Z) (i : nat) (x y : Z) :
  l !! i = Some x -> sumZ (<[i := y]> l) = sumZ l - x + y.
Proof.
  revert i. induction l as [| a l IH]; intros [| i] Hi; simpl in *; try done.
  - injection Hi as ->. lia.
  - rewrite (IH i Hi). lia.
Qed.

Lemma sumZ_replicate_0 (n : nat) : sumZ (replicate n 0) = 0.
Proof. induction n as [| n IH]; simpl; [done | by rewrite IH]. Qed.

Lemma sum64_insert_add64 (l : list Z) (i : nat) (x d : Z) :
  l !! i = Some x -> sum64 (<[i := add64 x d]> l) = add64 (sum64 l) d.
Proof.
  intros Hi. unfold sum64, add64. rewrite (sumZ_insert l i x) by done.
  rewrite wrap64_add_r, wrap64_add_l. f_equal. lia.
Qed.

Lemma sumZ_zip_add64 (l l0 : list Z) :
  length l = length l0 ->
  wrap64 (sumZ (zip_with add64 l l0)) = wrap64 (sumZ l + sumZ l0).
Proof.
  revert l0. induction l as [| x l IH]; intros [| y l0] Hlen; simpl in *; try done.
  injection Hlen as Hlen.
  rewrite <- wrap64_add_r, (IH l0 Hlen), wrap64_add_r.
  unfold add64. rewrite wrap64_add_l. f_equal. lia.
Qed.

Lemma sumZ_zip_sub64 (l l0 : list Z) :
  length l = length l0 ->
  wrap64 (sumZ (zip_with sub64 l l0)) = wrap64 (sumZ l - sumZ l0).
Proof.
  revert l0. induction l as [| x l IH]; intros [| y l0] Hlen; simpl in *; try done.
  injection Hlen as Hlen.
  rewrite <- wrap64_add_r, (IH l0 Hlen), wrap64_add_r.
  unfold sub64. rewrite wrap64_add_l. f_equal. lia.
Qed.

Lemma sum64_zip_add64 (l l0 : list Z) :
  length l = length l0 ->
  sum64 (zip_with add64 l l0) = add64 (sum64 l) (sum64 l0).
Proof.
  intros Hlen. unfold sum64. rewrite sumZ_zip_add64 by done.
  unfold add64. by rewrite wrap64_add_l, wrap64_add_r.
Qed.

Lemma sum64_zip_sub64 (l l0 : list Z) :
  length l = length l0 ->
  sum64 (zip_with sub64 l l0) = sub64 (sum64 l) (sum64 l0).
Proof.
  intros Hlen. unfold sum64. rewrite sumZ_zip_sub64 by done.
  unfold sub64. by rewrite wrap64_sub_l, wrap64_sub_r.
Qed.

Lemma sum64_replicate_0 (n : nat) : sum64 (replicate n 0) = 0.
Proof. unfold sum64. by rewrite sumZ_replicate_0. Qed.

Lemma zeroed_histogram_ok (b : list Z) :
  histogram_ok (mkHistogram b (replicate (S (length b)) 0)
                  (replicate (S (length b)) 0) 0 0).
Proof.
  split; split; cbn [bucketCounts bucketTotals bucketBoundaries numSamples total].
  - apply length_replicate.
  - apply length_replicate.
  - symmetry. apply sum64_replicate_0.
  - symmetry. apply sum64_replicate_0.
Qed.

Lemma New_histogram_ok (b : slice) (h : Histogram) :
  New b = Ok h -> histogram_ok h.
Proof.
  destruct b as [b |]; [| done]. unfold New. intros Hnew.
  apply bind_Ok in Hnew as ([] & _ & Hnew).
  replace (Z.of_nat (length b) + 1) with (Z.of_nat (S (length b))) in Hnew by lia.
  rewrite make_Ok in Hnew. cbn [bind] in Hnew. injection Hnew as <-.
  apply zeroed_histogram_ok.
Qed.

Lemma Increment_histogram_ok (h h' : Histogram) (val : Z) :
  histogram_ok h -> Increment h val = Ok h' -> histogram_ok h'.
Proof.
  intros [[Hc Ht] [Hn Htot]]. unfold Increment. intros Hrun.
  apply bind_Ok in Hrun as (i & _ & Hrun).
  apply bind_Ok in Hrun as (c & Hci%slice_get_Ok & Hrun).
  rewrite slice_set_Ok in Hrun by (by eapply lookup_lt_Some). cbn [bind] in Hrun.
  apply bind_Ok in Hrun as (t & Hti%slice_get_Ok & Hrun).
  rewrite slice_set_Ok in Hrun by (by eapply lookup_lt_Some). cbn [bind] in Hrun.
  injection Hrun as <-.
  split; split; simpl; rewrite ?length_insert; try done.
  - by rewrite sum64_insert_add64, Hn.
  - by rewrite sum64_insert_add64, Htot.
Qed.

Lemma Clear_zeroes (h : Histogram) :
  well_formed h ->
  Clear h = Ok (mkHistogram (bucketBoundaries h)
                  (replicate (S (length (bucketBoundaries h))) 0)
                  (replicate (S (length (bucketBoundaries h))) 0) 0 0).
Proof.
  intros [Hc Ht].
  destruct (Clear_loop_spec (length (bucketCounts h)) 0 h)
    as (h' & Hrun & Hb & Hlc & Hlt & Hin & _ & Hscal); [lia | congruence |].
  destruct Hscal as [Hn Htot]; [lia |].
  unfold Clear. replace (length (bucketTotals h)) with (length (bucketCounts h)) by lia.
  rewrite Nat.eqb_refl. cbn [negb]. rewrite Hrun. f_equal.
  destruct h' as [bb counts totals n tot].
  cbn [bucketBoundaries bucketCounts bucketTotals numSamples total] in *.
  subst bb n tot. f_equal.
  - rewrite <- Hc, <- Hlc. apply lookup_all_zero. intros j Hj. apply Hin. lia.
  - rewrite <- Ht, <- Hlt. apply lookup_all_zero. intros j Hj. apply Hin. lia.
Qed.

Lemma Copy_same (h : Histogram) : Copy h = Ok h.
Proof.
  unfold Copy. rewrite !make_Ok. cbn [bind].
  rewrite !copy_full by (by rewrite length_replicate). by destruct h.
Qed.

Lemma on_receiver_Ok (method : Histogram -> result Histogram) (p : ptr) (σ σ' : heap) :
  on_receiver method p σ = Ok σ' ->
  exists r r', σ !! p = Some r /\ method r = Ok r' /\ σ' = <[p := r']> σ.
Proof.
  unfold on_receiver, deref. intros Hrun.
  destruct (σ !! p) as [r |]; simpl in Hrun; [| done].
  apply bind_Ok in Hrun as (r' & Hm & [= <-]). eauto.
Qed.

Lemma heap_ok_insert (σ : heap) (p : ptr) (r : Histogram) :
  heap_ok σ -> histogram_ok r -> heap_ok (<[p := r]> σ).
Proof. intros Hσ Hr. by apply Forall_insert. Qed.

Lemma heap_ok_snoc (σ : heap) (r : Histogram) :
  heap_ok σ -> histogram_ok r -> heap_ok (σ ++ [r]).
Proof. intros Hσ Hr. apply Forall_app. split; [done | by constructor]. Qed.

Lemma heap_ok_lookup (σ : heap) (p : ptr) (r : Histogram) :
  heap_ok σ -> σ !! p = Some r -> histogram_ok r.
Proof. intros Hσ Hp. by eapply (Forall_lookup_1 _ σ). Qed.

Lemma merge_with_heap_ok (op : Z -> Z -> Z) (h other : ptr) (σ σ' : heap) :
  (forall l l0, length l = length l0 ->
     sum64 (zip_with op l l0) = op (sum64 l) (sum64 l0)) ->
  heap_ok σ -> merge_with op h other σ = Ok σ' -> heap_ok σ'.
Proof.
  intros Hop Hσ Hrun. pose proof Hrun as Hrun'. unfold merge_with, deref in Hrun'.
  destruct (σ !! other) as [o |] eqn:Ho; simpl in Hrun'; [| done].
  destruct (σ !! h) as [r |] eqn:Hr; simpl in Hrun'; [| done].
  destruct (Nat.eqb_spec (length (bucketBoundaries o)) (length (bucketBoundaries r)))
    as [Hlen | ?]; simpl in Hrun'; [| done].
  clear Hrun'.
  destruct (heap_ok_lookup _ _ _ Hσ Hr) as [Hwr [Hrn Hrt]].
  destruct (heap_ok_lookup _ _ _ Hσ Ho) as [Hwo [Hon Hot]].
  rewrite (merge_with_spec op h other σ r o) in Hrun by done.
  injection Hrun as <-. apply heap_ok_insert; [done |].
  split; [by apply merged_well_formed |].
  destruct Hwr as [Hrc Hrt']. destruct Hwo as [Hoc Hot'].
  split; simpl; rewrite Hop by lia; congruence.
Qed.

Lemma exec_heap_ok (c : call) (σ σ' : heap) :
  heap_ok σ -> exec c σ = Ok σ' -> heap_ok σ'.
Proof.
  intros Hσ. destruct c as [b | p val | p val | p | p q | p q | p]; simpl.
  - destruct (New b) as [h | e | pn] eqn:Hnew; intros [= <-]; [| done].
    apply heap_ok_snoc; [done |]. by eapply New_histogram_ok.
  - intros (r & r' & Hp & Hm & ->)%on_receiver_Ok.
    apply heap_ok_insert; [done |].
    eapply Increment_histogram_ok; [| done]. by eapply heap_ok_lookup.
  - intros (r & r' & Hp & Hm & ->)%on_receiver_Ok.
    apply heap_ok_insert; [done |]. rewrite AtomicIncrement_unfold in Hm.
    eapply Increment_histogram_ok; [| done]. by eapply heap_ok_lookup.
  - intros (r & r' & Hp & Hm & ->)%on_receiver_Ok.
    apply heap_ok_insert; [done |].
    destruct (heap_ok_lookup _ _ _ Hσ Hp) as [Hw _].
    rewrite (Clear_zeroes r Hw) in Hm. injection Hm as <-.
    apply zeroed_histogram_ok.
  - rewrite IncrementFromHistogram_merge_with.
    apply merge_with_heap_ok; [apply sum64_zip_add64 | done].
  - rewrite DecrementFromHistogram_merge_with.
    apply merge_with_heap_ok; [apply sum64_zip_sub64 | done].
  - unfold deref. destruct (σ !! p) as [r |] eqn:Hp; simpl; [| done].
    rewrite Copy_same. simpl. intros [= <-].
    apply heap_ok_snoc; [done |]. by eapply heap_ok_lookup.
Qed.

Lemma run_heap_ok (cs : list call) (σ σ' : heap) :
  heap_ok σ -> run cs σ = Ok σ' -> heap_ok σ'.
Proof.
  revert σ. induction cs as [| c cs IH]; intros σ Hσ; simpl.
  - by intros [= <-].
  - intros (σ1 & Hexec & Hrun)%bind_Ok.
    eapply IH; [| done]. by eapply exec_heap_ok.
Qed.

(** *** No valid call panics *)

Lemma Search_loop_total (f : nat -> result bool) (n i j : nat) :
  (forall k, (k < n)%nat -> exists b, f k = Ok b) ->
  (i <= j)%nat -> (j <= n)%nat ->
  exists r, Search_loop f i j = Ok r.
Proof.
  intros Hf. remember (j - i)%nat as d eqn:Hd. revert i j Hd.
  induction d as [d IH] using lt_wf_ind. intros i j Hd Hij Hjn.
  simp Search_loop. destruct (lt_dec i j) as [Hlt | Hge]; simpl; [| eauto].
  destruct (div2_between i j Hlt) as [Hm1 Hm2].
  destruct (Hf (Nat.div2 (i + j))) as [b ->]; [lia |].
  destruct b; simpl; eapply IH; try reflexivity; lia.
Qed.

Lemma Increment_total (h : Histogram) (val : Z) :
  well_formed h -> exists h', Increment h val = Ok h'.
Proof.
  intros [Hc Ht].
  destruct (Search_loop_total (exceeds h val) (length (bucketBoundaries h))
              0 (length (bucketBoundaries h))) as [i Hi]; [| lia | lia |].
  { intros k Hk. destruct (lookup_lt_is_Some_2 _ _ Hk) as [x Hx].
    rewrite (exceeds_lookup _ _ _ _ Hx). eauto. }
  pose proof (Search_bound _ _ _ Hi) as Hle.
  destruct (lookup_lt_is_Some_2 (bucketCounts h) i) as [c Hci]; [lia |].
  destruct (lookup_lt_is_Some_2 (bucketTotals h) i) as [t Hti]; [lia |].
  unfold Increment, Search. rewrite Hi. cbn [bind].
  unfold slice_get, slice_set. rewrite Hci, Hti. cbn [bind]. eauto.
Qed.

Lemma New_never_panics (b : slice) (p : panic) : New b <> Panic p.
Proof.
  destruct b as [b |]; [| done]. unfold New.
  destruct (New_loop_spec b (length b - 1) 0) as [[-> _] | [-> _]].
  - destruct b; simpl; [right; done | left; lia].
  - cbn [bind].
    replace (Z.of_nat (length b) + 1) with (Z.of_nat (S (length b))) by lia.
    by rewrite make_Ok.
  - done.
Qed.

(** On a heap of the data model every valid call returns normally: the
    only panics are a nil pointer and a merge between histograms with
    different numbers of boundaries. *)
Lemma exec_succeeds (c : call) (σ : heap) :
  heap_ok σ -> call_valid c σ -> exists σ', exec c σ = Ok σ'.
Proof.
  intros Hσ. destruct c as [b | p val | p val | p | p q | p q | p]; simpl.
  - intros _. pose proof (New_never_panics b) as Hnp.
    destruct (New b) as [h | e | pn]; [eauto | eauto | by destruct (Hnp pn)].
  - intros [r Hp]. destruct (heap_ok_lookup _ _ _ Hσ Hp) as [Hw _].
    destruct (Increment_total r val Hw) as [r' Hr'].
    unfold on_receiver. rewrite (deref_Ok _ _ _ Hp). cbn [bind]. rewrite Hr'. eauto.
  - intros [r Hp]. destruct (heap_ok_lookup _ _ _ Hσ Hp) as [Hw _].
    destruct (Increment_total r val Hw) as [r' Hr'].
    unfold on_receiver. rewrite (deref_Ok _ _ _ Hp). cbn [bind].
    rewrite AtomicIncrement_unfold, Hr'. eauto.
  - intros [r Hp]. destruct (heap_ok_lookup _ _ _ Hσ Hp) as [Hw _].
    unfold on_receiver. rewrite (deref_Ok _ _ _ Hp). cbn [bind].
    rewrite (Clear_zeroes r Hw). eauto.
  - intros (r & o & Hr & Ho & Hlen).
    rewrite IncrementFromHistogram_merge_with.
    rewrite (merge_with_spec add64 p q σ r o); eauto;
      by eapply heap_ok_lookup.
  - intros (r & o & Hr & Ho & Hlen).
    rewrite DecrementFromHistogram_merge_with.
    rewrite (merge_with_spec sub64 p q σ r o); eauto;
      by eapply heap_ok_lookup.
  - intros [r Hp]. rewrite (deref_Ok _ _ _ Hp). cbn [bind].
    rewrite Copy_same. eauto.
Qed.

(** *** Summing the buckets *)

Lemma sum_loop_spec (l : list Z) (count start : nat) (a : Z) :
  (start + count <= length l)%nat ->
  for_range start count (fun i acc =>
      let* x := slice_getZ l (Z.of_nat i) in Ok (add64 acc x)) (wrap64 a)
  = Ok (wrap64 (a + sumZ (take count (drop start l)))).
Proof.
  revert start a. induction count as [| count IH]; intros start a Hlen.
  - simpl. do 2 f_equal. lia.
  - destruct (lookup_lt_is_Some_2 l start) as [x Hx]; [lia |].
    cbn [for_range]. rewrite slice_getZ_of_nat, (proj2 (slice_get_Ok _ _ _) Hx).
    cbn [bind].
    replace (add64 (wrap64 a) x) with (wrap64 (a + x))
      by (unfold add64; by rewrite wrap64_add_l).
    rewrite IH by lia.
    rewrite (drop_S l x start Hx). simpl. do 2 f_equal. lia.
Qed.

Lemma sum_upto_slice (l : list Z) :
  sum_upto (slice_getZ l) (Z.of_nat (length l)) = Ok (sum64 l).
Proof.
  unfold sum_upto. rewrite Nat2Z.id.
  change 0 with (wrap64 0) at 1. rewrite sum_loop_spec by lia.
  rewrite drop_0, firstn_all. reflexivity.
Qed.

Lemma sums_of_histogram_ok (h : Histogram) :
  histogram_ok h ->
  sum_BucketCount h = Ok (Count h) /\ sum_BucketTotal h = Ok (Total h).
Proof.
  intros [[Hc Ht] [Hn Htot]].
  assert (Size h = Ok (Z.of_nat (length (bucketCounts h)))) as Hsize.
  { unfold Size. replace (length (bucketTotals h)) with (length (bucketCounts h)) by lia.
    by rewrite Nat.eqb_refl. }
  unfold sum_BucketCount, sum_BucketTotal, BucketCount, BucketTotal, Count, Total.
  rewrite Hsize. cbn [bind]. split.
  - change (fun index => slice_getZ (bucketCounts h) index)
      with (slice_getZ (bucketCounts h)).
    by rewrite sum_upto_slice, Hn.
  - replace (length (bucketCounts h)) with (length (bucketTotals h)) by lia.
    change (fun index => slice_getZ (bucketTotals h) index)
      with (slice_getZ (bucketTotals h)).
    by rewrite sum_upto_slice, Htot.
Qed.

(** C3. Start from no histogram at all and run any finite sequence of
    constructor calls and of [Increment], [AtomicIncrement], [Clear],
    [IncrementFromHistogram], [DecrementFromHistogram] and [Copy] calls, one
    after the other, on any of the histograms allocated so far. Then for
    every histogram allocated at the end, the sum of [BucketCount(i)] over
    [i] in [0, Size()) is [Count()] and the sum of [BucketTotal(i)] is
    [Total()], the sums being accumulated in an [int64] like the counters
    themselves; they are the mathematical sums whenever those are [int64]
    values. (A sequence stops early only on a nil pointer or on a merge
    between different numbers of boundaries, see [exec_succeeds].) *)
Theorem counters_invariant (cs : list call) (σ : heap) (p : ptr) (h : Histogram) :
  run cs [] = Ok σ ->
  σ !! p = Some h ->
  sum_BucketCount h = Ok (Count h) /\
  sum_BucketTotal h = Ok (Total h) /\
  (int64 (sumZ (bucketCounts h)) -> Count h = sumZ (bucketCounts h)) /\
  (int64 (sumZ (bucketTotals h)) -> Total h = sumZ (bucketTotals h)).
Proof.
  intros Hrun Hp.
  assert (histogram_ok h) as Hok.
  { eapply heap_ok_lookup; [| done]. eapply run_heap_ok; [| done]. constructor. }
  destruct (sums_of_histogram_ok h Hok) as [Hcount Htotal].
  destruct Hok as [_ [Hn Htot]]. unfold Count, Total.
  split_and!; [done | done | |].
  - intros Hex. rewrite Hn. by apply wrap64_id.
  - intros Hex. rewrite Htot. by apply wrap64_id.
Qed.

Lemma counters_invariant_witness :
  sum_BucketCount (mkHistogram [10; 20] [-8; 1; -12] [-20; 12; -92] (-19) (-100))
    = Ok (-19) /\
  sum_BucketTotal (mkHistogram [10; 20] [-8; 1; -12] [-20; 12; -92] (-19) (-100))
    = Ok (-100).
Proof.
  refine ((fun H => conj (proj1 H) (proj1 (proj2 H))) _).
  apply (counters_invariant
    [CallNew (Some [10; 20]); CallNew None;
     CallIncrement 0%nat 5; CallAtomicIncrement 0%nat 25;
     CallIncrement 0%nat 9223372036854775807;
     CallIncrement 0%nat 9223372036854775807;
     CallIncrement 0%nat (-9223372036854775808);
     CallCopy 0%nat;
     CallIncrementFromHistogram 0%nat 1%nat;
     CallIncrementFromHistogram 0%nat 0%nat;
     CallClear 1%nat; CallIncrement 1%nat 12;
     CallDecrementFromHistogram 1%nat 0%nat]
    [mkHistogram [10; 20] [8; 0; 12] [20; 0; 92] 20 112;
     mkHistogram [10; 20] [-8; 1; -12] [-20; 12; -92] (-19) (-100)]
    1%nat); [vm_compute; reflexivity | reflexivity].
Defined.

(** ** Range *)

Lemma quot_progression_bounds (start stop step j : Z) :
  step <> 0 ->
  (0 < step -> start <= stop) -> (step < 0 -> stop <= start) ->
  0 <= j <= (stop - start) ÷ step ->
  Z.min start stop <= start + j * step <= Z.max start stop.
Proof.
  intros Hstep Hpos Hneg Hj.
  pose proof (Z.quot_rem' (stop - start) step) as Hqr.
  destruct (Z.lt_trichotomy step 0) as [Hlt | [? | Hgt]]; [| lia |].
  - specialize (Hneg Hlt).
    pose proof (Z.rem_nonpos (stop - start) step Hstep ltac:(lia)). nia.
  - specialize (Hpos Hgt).
    pose proof (Z.rem_nonneg (stop - start) step Hstep ltac:(lia)). nia.
Qed.

Lemma quot_nonneg_same_direction (start stop step : Z) :
  step <> 0 ->
  (0 < step -> start <= stop) -> (step < 0 -> stop <= start) ->
  0 <= (stop - start) ÷ step.
Proof.
  intros Hstep Hpos Hneg.
  destruct (Z.lt_trichotomy step 0) as [Hlt | [? | Hgt]]; [| lia |].
  - rewrite <- Z.quot_opp_opp by done. apply Z.quot_pos; lia.
  - apply Z.quot_pos; lia.
Qed.

(** The filling loop of [Range] over the positions [k .. k+count). *)
Lemma Range_loop_spec (start step : Z) (count k : nat) (values : list Z) :
  (k + count <= length values)%nat ->
  exists values',
    for_range k count (fun i s =>
        let* values := slice_set s.1 i s.2 in Ok (values, add64 s.2 step))
      (values, wrap64 (start + Z.of_nat k * step))
    = Ok (values', wrap64 (start + Z.of_nat (k + count) * step)) /\
    length values' = length values /\
    (forall j : nat, (k <= j < k + count)%nat ->
       values' !! j = Some (wrap64 (start + Z.of_nat j * step))) /\
    (forall j : nat, ~ (k <= j < k + count)%nat -> values' !! j = values !! j).
Proof.
  revert k values. induction count as [| count IH]; intros k values Hlen.
  - exists values. cbn [for_range]. rewrite Nat.add_0_r.
    split_and!; try done. intros; lia.
  - cbn [for_range fst snd]. rewrite slice_set_Ok by lia. cbn [bind fst snd].
    replace (add64 (wrap64 (start + Z.of_nat k * step)) step)
      with (wrap64 (start + Z.of_nat (S k) * step))
      by (unfold add64; rewrite wrap64_add_l; f_equal; lia).
    destruct (IH (S k)
                (<[k := wrap64 (start + Z.of_nat k * step)]> values))
      as (values' & Hrun & Hl & Hin & Hout).
    { rewrite length_insert. lia. }
    rewrite length_insert in Hl.
    exists values'. rewrite Hrun.
    replace (S k + count)%nat with (k + S count)%nat by lia.
    split_and!; try done.
    + intros j Hj. destruct (decide (j = k)) as [-> | Hne].
      * rewrite Hout by lia. apply list_lookup_insert_eq. lia.
      * apply Hin. lia.
    + intros j Hj. rewrite Hout by lia. apply list_lookup_insert_ne. lia.
Qed.

Lemma degenerate_false (start stop step : Z) :
  degenerate start stop step = false ->
  step <> 0 /\ (0 < step -> start <= stop) /\ (step < 0 -> stop <= start).
Proof. unfold degenerate. lia. Qed.

Lemma Range_degenerate (start stop step : Z) :
  degenerate start stop step = true -> Range start stop step = Ok None.
Proof.
  unfold degenerate, Range. intros Hd.
  destruct (step =? 0); [done |].
  destruct ((step >? 0) && (start >? stop)); [done |].
  destruct ((step <? 0) && (start <? stop)); [done |]. done.
Qed.

Lemma Range_progression (start stop step : Z) :
  int64 start -> int64 stop ->
  degenerate start stop step = false ->
  int64 (stop - start) ->
  (stop - start) ÷ step + 1 <= MaxInt64 ->
  returns_progression start stop step.
Proof.
  intros Hstart Hstop Hd Hdiff Hlen.
  pose proof Hd as (Hstep & Hpos & Hneg)%degenerate_false.
  pose proof (quot_nonneg_same_direction start stop step Hstep Hpos Hneg) as Hq.
  set (q := (stop - start) ÷ step) in *.
  destruct (Range_loop_spec start step (Z.to_nat (q + 1)) 0
              (replicate (Z.to_nat (q + 1)) 0)) as (values & Hrun & Hl & Hin & _).
  { rewrite length_replicate. lia. }
  rewrite length_replicate in Hl.
  exists values. split_and!.
  - unfold Range, degenerate in *.
    destruct (step =? 0); [done |].
    destruct ((step >? 0) && (start >? stop)); [done |].
    destruct ((step <? 0) && (start <? stop)); [done |].
    unfold div64. destruct (Z.eqb_spec step 0) as [| _]; [done |]. cbn [bind].
    unfold sub64. rewrite (wrap64_id (stop - start)) by done. fold q.
    rewrite (wrap64_id q) by (unfold int64, MinInt64, MaxInt64 in *; lia).
    rewrite add64_exact by (unfold int64, MinInt64, MaxInt64 in *; lia).
    unfold make. destruct (Z.ltb_spec (q + 1) 0) as [| _]; [lia |]. cbn [bind].
    change 0 with (Z.of_nat 0 * step) in Hrun at 1.
    rewrite Z.mul_0_l, Z.add_0_r, (wrap64_id start) in Hrun by done.
    rewrite Hrun. reflexivity.
  - rewrite Hl. lia.
  - intros k Hk. rewrite Hin by lia. f_equal. apply wrap64_id.
    pose proof (quot_progression_bounds start stop step (Z.of_nat k) Hstep Hpos Hneg
                  ltac:(fold q; lia)).
    unfold int64 in *. lia.
Qed.

Lemma degenerate_true_iff (start stop step : Z) :
  degenerate start stop step = true <->
  step = 0 \/ (step > 0 /\ start > stop) \/ (step < 0 /\ start < stop).
Proof. unfold degenerate. lia. Qed.

(** C5 (amended). [Range start stop step] returns the nil slice when
    [step = 0], when [step > 0] and [start > stop], and when [step < 0] and
    [start < stop]. In every other case, provided that neither [stop - start]
    nor [(stop - start) / step + 1] overflows [int64], it returns exactly
    [(stop - start) / step + 1] elements (division truncating toward zero),
    the first being [start] and each next one [step] more than the one
    before. In particular [Range 1 10 3] is [1, 4, 7, 10] and
    [Range 10 1 (-3)] is [10, 7, 4, 1]. *)
Theorem Range_spec (start stop step : Z) :
  int64 start -> int64 stop ->
  (step = 0 \/ (step > 0 /\ start > stop) \/ (step < 0 /\ start < stop) ->
     Range start stop step = Ok None) /\
  (~ (step = 0 \/ (step > 0 /\ start > stop) \/ (step < 0 /\ start < stop)) ->
     int64 (stop - start) ->
     (stop - start) ÷ step + 1 <= MaxInt64 ->
     returns_progression start stop step) /\
  Range 1 10 3 = Ok (Some [1; 4; 7; 10]) /\
  Range 10 1 (-3) = Ok (Some [10; 7; 4; 1]).
Proof.
  intros Hstart Hstop. split_and!.
  - intros Hd. by apply Range_degenerate, degenerate_true_iff.
  - intros Hd Hdiff Hlen. apply Range_progression; try done.
    destruct (degenerate start stop step) eqn:Heq; [| done].
    by apply degenerate_true_iff in Heq.
  - vm_compute. reflexivity.
  - vm_compute. reflexivity.
Qed.

Lemma Range_spec_witness :
  Range 3 3 0 = Ok None /\
  returns_progression 2 20 5 /\
  returns_progression 20 2 (-5).
Proof.
  split_and!.
  - apply (Range_spec 3 3 0); unfold int64, MinInt64, MaxInt64; lia.
  - apply (Range_spec 2 20 5); unfold int64, MinInt64, MaxInt64; try lia.
    vm_compute. discriminate.
  - apply (Range_spec 20 2 (-5)); unfold int64, MinInt64, MaxInt64; try lia.
    vm_compute. discriminate.
Defined.

(** C5 as stated fails where the length computation overflows: from
    [MinInt64] up to [MaxInt64 - 1] in steps of 1, [stop - start] wraps to
    -2, the length comes out as -1 and [make] panics. *)
Lemma Range_overflow_counterexample :
  degenerate MinInt64 (MaxInt64 - 1) 1 = false /\
  Range MinInt64 (MaxInt64 - 1) 1 = Panic MakesliceLenOutOfRange /\
  ~ Range_contract MinInt64 (MaxInt64 - 1) 1.
Proof.
  split_and!.
  - vm_compute. reflexivity.
  - vm_compute. reflexivity.
  - unfold Range_contract.
    replace (degenerate MinInt64 (MaxInt64 - 1) 1) with false by (vm_compute; reflexivity).
    intros (values & Hrun & _).
    vm_compute in Hrun. discriminate.
Qed.

(** * Further properties *)

(** ** Bucket lookup without assumptions on the boundaries *)

Lemma Increment_Ok_intro (h : Histogram) (val : Z) (i : nat) (c t : Z) :
  bucket_index h val = Ok i ->
  bucketCounts h !! i = Some c -> bucketTotals h !! i = Some t ->
  Increment h val =
    Ok (mkHistogram (bucketBoundaries h) (<[i := add64 c 1]> (bucketCounts h))
          (<[i := add64 t val]> (bucketTotals h))
          (add64 (numSamples h) 1) (add64 (total h) val)).
Proof.
  unfold bucket_index, Increment. intros -> Hc Ht. cbn [bind].
  unfold slice_get, slice_set. by rewrite Hc, Ht.
Qed.

Lemma Increment_Ok_inv (h h' : Histogram) (val : Z) :
  Increment h val = Ok h' ->
  exists (i : nat) (c t : Z),
    bucket_index h val = Ok i /\
    bucketCounts h !! i = Some c /\ bucketTotals h !! i = Some t /\
    h' = mkHistogram (bucketBoundaries h) (<[i := add64 c 1]> (bucketCounts h))
           (<[i := add64 t val]> (bucketTotals h))
           (add64 (numSamples h) 1) (add64 (total h) val).
Proof.
  unfold Increment. intros Hrun.
  apply bind_Ok in Hrun as (i & Hi & Hrun).
  apply bind_Ok in Hrun as (c & Hci%slice_get_Ok & Hrun).
  rewrite slice_set_Ok in Hrun by (by eapply lookup_lt_Some). cbn [bind] in Hrun.
  apply bind_Ok in Hrun as (t & Hti%slice_get_Ok & Hrun).
  rewrite slice_set_Ok in Hrun by (by eapply lookup_lt_Some). cbn [bind] in Hrun.
  injection Hrun as <-. exists i, c, t. done.
Qed.

Lemma bucket_index_total (h : Histogram) (val : Z) :
  exists i, bucket_index h val = Ok i /\ (i <= length (bucketBoundaries h))%nat.
Proof.
  destruct (Search_loop_total (exceeds h val) (length (bucketBoundaries h))
              0 (length (bucketBoundaries h))) as [i Hi]; [| lia | lia |].
  { intros k Hk. destruct (lookup_lt_is_Some_2 _ _ Hk) as [x Hx].
    rewrite (exceeds_lookup _ _ _ _ Hx). eauto. }
  exists i. split; [done |]. by eapply Search_bound.
Qed.

(** X1. Whatever the boundaries hold, sorted or not, [Increment] on a
    histogram with N+1 counters never panics: the search stays inside
    [0, N], one bucket count grows by 1 and its total by [val], and the
    result again has N+1 counters over the same boundaries. *)
Theorem Increment_safe_on_any_boundaries (h : Histogram) (val : Z) :
  well_formed h ->
  exists (i : nat) (h' : Histogram) (c t : Z),
    Increment h val = Ok h' /\
    (i <= length (bucketBoundaries h))%nat /\
    bucketCounts h !! i = Some c /\ bucketTotals h !! i = Some t /\
    bucketCounts h' = <[i := add64 c 1]> (bucketCounts h) /\
    bucketTotals h' = <[i := add64 t val]> (bucketTotals h) /\
    bucketBoundaries h' = bucketBoundaries h /\
    well_formed h'.
Proof.
  intros [Hc Ht]. destruct (bucket_index_total h val) as (i & Hi & Hle).
  destruct (lookup_lt_is_Some_2 (bucketCounts h) i) as [c Hci]; [lia |].
  destruct (lookup_lt_is_Some_2 (bucketTotals h) i) as [t Hti]; [lia |].
  exists i. eexists. exists c, t.
  split; [by apply (Increment_Ok_intro h val i c t) |].
  cbn [bucketCounts bucketTotals bucketBoundaries]. split_and!; try done.
  split; cbn [bucketCounts bucketTotals bucketBoundaries]; by rewrite length_insert.
Qed.

Lemma Increment_safe_on_any_boundaries_witness :
  exists h', Increment (mkHistogram [9; 2; 7] [0; 0; 0; 0] [0; 0; 0; 0] 0 0) 5 = Ok h' /\
    well_formed h'.
Proof.
  destruct (Increment_safe_on_any_boundaries
              (mkHistogram [9; 2; 7] [0; 0; 0; 0] [0; 0; 0; 0] 0 0) 5)
    as (i & h' & c & t & Hrun & _ & _ & _ & _ & _ & _ & Hw).
  - split; reflexivity.
  - exists h'. done.
Defined.

(** X2. Over strictly increasing boundaries the lookup is monotone: a
    larger sample never lands in a lower bucket. *)
Theorem bucket_index_monotone (h : Histogram) (v v' : Z) (i i' : nat) :
  strictly_increasing (bucketBoundaries h) ->
  v <= v' ->
  bucket_index h v = Ok i -> bucket_index h v' = Ok i' ->
  (i <= i')%nat.
Proof.
  intros Hinc Hv Hi Hi'.
  destruct (Search_bucket_of h v Hinc) as (j & Hj & Hle & Hgt & Hbelow).
  destruct (Search_bucket_of h v' Hinc) as (j' & Hj' & Hle' & Hgt' & Hbelow').
  unfold bucket_index in *. assert (j = i) as -> by congruence.
  assert (j' = i') as -> by congruence.
  destruct (decide (i <= i')%nat) as [| Hlt]; [done |]. exfalso.
  destruct (lookup_lt_is_Some_2 (bucketBoundaries h) i') as [x Hx]; [lia |].
  pose proof (Hgt' x Hx). pose proof (Hbelow i' x ltac:(lia) Hx). lia.
Qed.

Lemma bucket_index_monotone_witness :
  bucket_index (mkHistogram [1; 2; 3; 4] [0; 0; 0; 0; 0] [0; 0; 0; 0; 0] 0 0) 2 = Ok 2%nat /\
  bucket_index (mkHistogram [1; 2; 3; 4] [0; 0; 0; 0; 0] [0; 0; 0; 0; 0] 0 0) 9 = Ok 4%nat /\
  (2 <= 4)%nat.
Proof.
  split_and!; [vm_compute; reflexivity | vm_compute; reflexivity |].
  apply (bucket_index_monotone
           (mkHistogram [1; 2; 3; 4] [0; 0; 0; 0; 0] [0; 0; 0; 0; 0] 0 0) 2 9).
  - by apply strictly_increasingb_sound.
  - lia.
  - vm_compute. reflexivity.
  - vm_compute. reflexivity.
Defined.

(** ** Buckets and their ranges *)

Lemma BucketRanges_value (h : Histogram) (i : nat) :
  (1 <= length (bucketBoundaries h))%nat ->
  (i <= length (bucketBoundaries h))%nat ->
  BucketRanges h (Z.of_nat i) =
    Ok (match i with
        | O => MinInt64
        | S j => default 0 (bucketBoundaries h !! j)
        end,
        if decide (i = length (bucketBoundaries h)) then MaxInt64
        else default 0 (bucketBoundaries h !! i)).
Proof.
  intros HN Hi. unfold BucketRanges.
  destruct (Z.ltb_spec (Z.of_nat i) 0); [lia |].
  destruct (Z.gtb_spec (Z.of_nat i) (Z.of_nat (length (bucketBoundaries h)))); [lia |].
  cbn [orb]. destruct i as [| j].
  - cbn [Z.of_nat Z.eqb]. rewrite (slice_getZ_of_nat _ 0).
    destruct (lookup_lt_is_Some_2 (bucketBoundaries h) 0) as [x Hx]; [lia |].
    rewrite (proj2 (slice_get_Ok _ _ _) Hx). cbn [bind].
    destruct (decide (0%nat = length (bucketBoundaries h))); [lia |].
    by rewrite Hx.
  - destruct (Z.eqb_spec (Z.of_nat (S j)) 0); [lia |].
    replace (Z.of_nat (S j) - 1) with (Z.of_nat j) by lia.
    destruct (lookup_lt_is_Some_2 (bucketBoundaries h) j) as [x Hx]; [lia |].
    rewrite !slice_getZ_of_nat, (proj2 (slice_get_Ok _ _ _) Hx), Hx. cbn [bind]. simpl default.
    destruct (Z.eqb_spec (Z.of_nat (S j)) (Z.of_nat (length (bucketBoundaries h))))
      as [Heq | Hne].
    + destruct (decide (S j = length (bucketBoundaries h))); [done | lia].
    + destruct (decide (S j = length (bucketBoundaries h))); [lia |].
      destruct (lookup_lt_is_Some_2 (bucketBoundaries h) (S j)) as [y Hy]; [lia |].
      by rewrite (proj2 (slice_get_Ok _ _ _) Hy), Hy.
Qed.

(** X3. A sample is counted in the bucket whose range holds it: over at
    least one strictly increasing boundary, the bucket [i] picked for an
    [int64] sample has [BucketRanges i = (lo, hi)] with [lo <= val <= hi],
    and [val < hi] for every bucket but the last. *)
Theorem sample_within_its_bucket_range (h : Histogram) (val : Z) (i : nat) :
  (1 <= length (bucketBoundaries h))%nat ->
  strictly_increasing (bucketBoundaries h) ->
  int64 val ->
  bucket_index h val = Ok i ->
  exists lo hi,
    BucketRanges h (Z.of_nat i) = Ok (lo, hi) /\
    lo <= val <= hi /\
    ((i < length (bucketBoundaries h))%nat -> val < hi).
Proof.
  intros HN Hinc Hval Hi.
  destruct (Search_bucket_of h val Hinc) as (j & Hj & Hle & Hgt & Hbelow).
  unfold bucket_index in Hi. assert (j = i) as -> by congruence.
  rewrite (BucketRanges_value h i HN Hle). eexists _, _. split; [done |].
  unfold int64 in Hval.
  assert (match i with
          | O => MinInt64
          | S j => default 0 (bucketBoundaries h !! j)
          end <= val) as Hlo.
  { destruct i as [| j]; [lia |].
    destruct (lookup_lt_is_Some_2 (bucketBoundaries h) j) as [x Hx]; [lia |].
    rewrite Hx. simpl. apply (Hbelow j x); [lia | done]. }
  revert Hlo. generalize (match i with
                          | O => MinInt64
                          | S j => default 0 (bucketBoundaries h !! j)
                          end). intros lo Hlo.
  destruct (decide (i = length (bucketBoundaries h))) as [Heq | Hne].
  - split; lia.
  - destruct (lookup_lt_is_Some_2 (bucketBoundaries h) i) as [y Hy]; [lia |].
    rewrite Hy. simpl. pose proof (Hgt y Hy). split; lia.
Qed.

Lemma sample_within_its_bucket_range_witness :
  exists lo hi,
    BucketRanges (mkHistogram [10; 20] [0; 0; 0] [0; 0; 0] 0 0) 1 = Ok (lo, hi) /\
    lo <= 15 <= hi.
Proof.
  destruct (sample_within_its_bucket_range
              (mkHistogram [10; 20] [0; 0; 0] [0; 0; 0] 0 0) 15 1)
    as (lo & hi & Hr & Hin & _).
  - simpl. lia.
  - by apply strictly_increasingb_sound.
  - unfold int64, MinInt64, MaxInt64. lia.
  - vm_compute. reflexivity.
  - exists lo, hi. done.
Defined.

(** X4. The bucket ranges tile the [int64] line: with at least one
    boundary, all of them [int64] and strictly increasing, the first range
    starts at [MinInt64], the last ends at [MaxInt64], every range has
    [lo <= hi], and each range ends where the next one starts. *)
Theorem BucketRanges_tile (h : Histogram) (i : nat) :
  (1 <= length (bucketBoundaries h))%nat ->
  strictly_increasing (bucketBoundaries h) ->
  Forall int64 (bucketBoundaries h) ->
  (i <= length (bucketBoundaries h))%nat ->
  exists lo hi,
    BucketRanges h (Z.of_nat i) = Ok (lo, hi) /\
    lo <= hi /\
    (i = 0%nat -> lo = MinInt64) /\
    (i = length (bucketBoundaries h) -> hi = MaxInt64) /\
    ((i < length (bucketBoundaries h))%nat ->
       exists hi', BucketRanges h (Z.of_nat (S i)) = Ok (hi, hi')).
Proof.
  intros HN Hinc Hint Hi.
  rewrite (BucketRanges_value h i HN Hi). eexists _, _. split; [done |].
  assert (forall (k : nat) x, bucketBoundaries h !! k = Some x -> int64 x) as Hall.
  { intros k x Hx. by eapply (Forall_lookup_1 _ _ _ _ Hint). }
  split_and!.
  - destruct (decide (i = length (bucketBoundaries h))) as [-> | Hne].
    + destruct (length (bucketBoundaries h)) as [| j] eqn:Hl; [lia |].
      destruct (lookup_lt_is_Some_2 (bucketBoundaries h) j) as [x Hx]; [lia |].
      rewrite Hx. simpl. specialize (Hall j x Hx). unfold int64 in Hall. lia.
    + destruct (lookup_lt_is_Some_2 (bucketBoundaries h) i) as [y Hy]; [lia |].
      rewrite Hy. simpl. destruct i as [| j].
      * specialize (Hall 0%nat y Hy). unfold int64 in Hall. lia.
      * destruct (lookup_lt_is_Some_2 (bucketBoundaries h) j) as [x Hx]; [lia |].
        rewrite Hx. simpl. pose proof (Hinc j x y Hx Hy). lia.
  - by intros ->.
  - intros ->. by destruct (decide _).
  - intros Hlt. rewrite (BucketRanges_value h (S i) HN ltac:(lia)).
    destruct (decide (i = length (bucketBoundaries h))); [lia |]. eauto.
Qed.

Lemma BucketRanges_tile_witness :
  exists lo hi,
    BucketRanges (mkHistogram [10; 20] [0; 0; 0] [0; 0; 0] 0 0) 1 = Ok (lo, hi) /\
    lo <= hi /\
    exists hi', BucketRanges (mkHistogram [10; 20] [0; 0; 0] [0; 0; 0] 0 0) 2 = Ok (hi, hi').
Proof.
  destruct (BucketRanges_tile (mkHistogram [10; 20] [0; 0; 0] [0; 0; 0] 0 0) 1)
    as (lo & hi & Hr & Hle & _ & _ & Hnext).
  - simpl. lia.
  - by apply strictly_increasingb_sound.
  - simpl. repeat constructor; unfold MinInt64, MaxInt64; lia.
  - simpl. lia.
  - exists lo, hi. split_and!; [done | done |]. apply Hnext. simpl. lia.
Defined.

(** ** Merging and subtracting, bucket by bucket *)

Lemma merge_with_buckets (op : Z -> Z -> Z) (h other : ptr) (σ : heap)
    (r o : Histogram) :
  σ !! h = Some r -> σ !! other = Some o ->
  length (bucketBoundaries o) = length (bucketBoundaries r) ->
  well_formed r -> well_formed o ->
  exists r',
    merge_with op h other σ = Ok (<[h := r']> σ) /\
    bucketBoundaries r' = bucketBoundaries r /\
    well_formed r' /\
    (forall (i : nat) x y,
       bucketCounts r !! i = Some x -> bucketCounts o !! i = Some y ->
       bucketCounts r' !! i = Some (op x y)) /\
    (forall (i : nat) x y,
       bucketTotals r !! i = Some x -> bucketTotals o !! i = Some y ->
       bucketTotals r' !! i = Some (op x y)) /\
    numSamples r' = op (numSamples r) (numSamples o) /\
    total r' = op (total r) (total o) /\
    (h <> other -> (<[h := r']> σ) !! other = Some o).
Proof.
  intros Hr Ho Hlen Hwr Hwo. exists (merged op r o).
  split; [by apply merge_with_spec |].
  split; [done |]. split; [by apply merged_well_formed |].
  unfold merged. cbn [bucketCounts bucketTotals numSamples total]. split_and!; try done.
  - intros i x y Hx Hy. rewrite lookup_zip_with, Hx, Hy. done.
  - intros i x y Hx Hy. rewrite lookup_zip_with, Hx, Hy. done.
  - intros Hne. by rewrite list_lookup_insert_ne.
Qed.

(** X5. [IncrementFromHistogram] between two histograms of the data
    model with as many boundaries never panics; it adds, bucket by bucket,
    the source's count and total to the target's, adds the source's sample
    count and total to the target's, keeps the target's boundaries (the
    boundary values are never compared), and leaves a source other than the
    target untouched. With the target itself as source every counter is
    doubled. *)
Theorem IncrementFromHistogram_adds (h other : ptr) (σ : heap) (r o : Histogram) :
  σ !! h = Some r -> σ !! other = Some o ->
  length (bucketBoundaries o) = length (bucketBoundaries r) ->
  well_formed r -> well_formed o ->
  exists r',
    IncrementFromHistogram h other σ = Ok (<[h := r']> σ) /\
    bucketBoundaries r' = bucketBoundaries r /\
    well_formed r' /\
    (forall (i : nat) x y,
       bucketCounts r !! i = Some x -> bucketCounts o !! i = Some y ->
       bucketCounts r' !! i = Some (add64 x y)) /\
    (forall (i : nat) x y,
       bucketTotals r !! i = Some x -> bucketTotals o !! i = Some y ->
       bucketTotals r' !! i = Some (add64 x y)) /\
    numSamples r' = add64 (numSamples r) (numSamples o) /\
    total r' = add64 (total r) (total o) /\
    (h <> other -> (<[h := r']> σ) !! other = Some o).
Proof.
  rewrite IncrementFromHistogram_merge_with. apply merge_with_buckets.
Qed.

Lemma IncrementFromHistogram_adds_witness :
  exists r',
    IncrementFromHistogram 0%nat 0%nat [mkHistogram [10] [1; 2] [5; 30] 3 35]
      = Ok [r'] /\
    numSamples r' = add64 3 3 /\ total r' = add64 35 35.
Proof.
  destruct (IncrementFromHistogram_adds 0%nat 0%nat
              [mkHistogram [10] [1; 2] [5; 30] 3 35]
              (mkHistogram [10] [1; 2] [5; 30] 3 35)
              (mkHistogram [10] [1; 2] [5; 30] 3 35))
    as (r' & Hrun & _ & _ & _ & _ & Hn & Ht & _); try done.
  exists r'. done.
Defined.

(** X6. [DecrementFromHistogram] under the same conditions never panics;
    it subtracts, bucket by bucket, the source's count and total from the
    target's and the source's sample count and total from the target's, with
    no check that the source was ever merged in, so counters may go
    negative; a source other than the target is left untouched. *)
Theorem DecrementFromHistogram_subtracts (h other : ptr) (σ : heap)
    (r o : Histogram) :
  σ !! h = Some r -> σ !! other = Some o ->
  length (bucketBoundaries o) = length (bucketBoundaries r) ->
  well_formed r -> well_formed o ->
  exists r',
    DecrementFromHistogram h other σ = Ok (<[h := r']> σ) /\
    bucketBoundaries r' = bucketBoundaries r /\
    well_formed r' /\
    (forall (i : nat) x y,
       bucketCounts r !! i = Some x -> bucketCounts o !! i = Some y ->
       bucketCounts r' !! i = Some (sub64 x y)) /\
    (forall (i : nat) x y,
       bucketTotals r !! i = Some x -> bucketTotals o !! i = Some y ->
       bucketTotals r' !! i = Some (sub64 x y)) /\
    numSamples r' = sub64 (numSamples r) (numSamples o) /\
    total r' = sub64 (total r) (total o) /\
    (h <> other -> (<[h := r']> σ) !! other = Some o).
Proof.
  rewrite DecrementFromHistogram_merge_with. apply merge_with_buckets.
Qed.

Lemma DecrementFromHistogram_subtracts_witness :
  exists r',
    DecrementFromHistogram 0%nat 1%nat
      [mkHistogram [10] [0; 0] [0; 0] 0 0; mkHistogram [20] [4; 1] [7; 21] 5 28]
      = Ok [r'; mkHistogram [20] [4; 1] [7; 21] 5 28] /\
    numSamples r' = -5 /\ total r' = -28 /\ bucketCounts r' !! 0%nat = Some (-4).
Proof.
  destruct (DecrementFromHistogram_subtracts 0%nat 1%nat
              [mkHistogram [10] [0; 0] [0; 0] 0 0; mkHistogram [20] [4; 1] [7; 21] 5 28]
              (mkHistogram [10] [0; 0] [0; 0] 0 0)
              (mkHistogram [20] [4; 1] [7; 21] 5 28))
    as (r' & Hrun & _ & _ & Hc & _ & Hn & Ht & _); try done.
  exists r'. split_and!; [done | done | done |]. by apply (Hc 0%nat 0 4).
Defined.

Lemma zip_sub64_self (l : list Z) : zip_with sub64 l l = replicate (length l) 0.
Proof.
  induction l as [| x l IH]; [done |]. cbn [zip_with length replicate].
  rewrite IH. f_equal. unfold sub64. by rewrite Z.sub_diag.
Qed.

(** X7. Subtracting a histogram of the data model from itself is [Clear]:
    [h.DecrementFromHistogram(h)] leaves the same heap as [h.Clear()]. *)
Theorem DecrementFromHistogram_self_is_Clear (h : ptr) (σ : heap) (r : Histogram) :
  σ !! h = Some r -> well_formed r ->
  DecrementFromHistogram h h σ = on_receiver Clear h σ.
Proof.
  intros Hr Hw. rewrite DecrementFromHistogram_merge_with.
  rewrite (merge_with_spec sub64 h h σ r r) by done.
  unfold on_receiver. rewrite (deref_Ok _ _ _ Hr). cbn [bind].
  rewrite (Clear_zeroes r Hw). cbn [bind]. do 2 f_equal.
  destruct Hw as [Hc Ht]. unfold merged. rewrite !zip_sub64_self, Hc, Ht.
  f_equal; unfold sub64; by rewrite Z.sub_diag.
Qed.

Lemma DecrementFromHistogram_self_is_Clear_witness :
  DecrementFromHistogram 0%nat 0%nat [mkHistogram [10] [1; 2] [5; 30] 3 35]
  = on_receiver Clear 0%nat [mkHistogram [10] [1; 2] [5; 30] 3 35].
Proof.
  by apply (DecrementFromHistogram_self_is_Clear 0%nat _
              (mkHistogram [10] [1; 2] [5; 30] 3 35)).
Defined.

Lemma add64_sub64 a b : int64 a -> add64 (sub64 a b) b = a.
Proof.
  intros Ha. unfold sub64, add64. rewrite wrap64_add_l.
  replace (a - b + b) with a by lia. by apply wrap64_id.
Qed.

Lemma zip_add64_sub64 (l l0 : list Z) :
  Forall int64 l -> (length l <= length l0)%nat ->
  zip_with add64 (zip_with sub64 l l0) l0 = l.
Proof.
  intros Hl. revert l0. induction Hl as [| x l Hx Hl IH]; intros [| y l0] Hlen;
    simpl in *; try done; try lia.
  rewrite add64_sub64 by done. f_equal. apply IH. lia.
Qed.

(** X8. The round trip in the other order: for a source other than the
    target with as many boundaries, subtracting the source and then merging
    it back in leaves the heap exactly as it was. *)
Theorem subtract_then_merge_restores (σ : heap) (h other : ptr) (r o : Histogram) :
  h <> other ->
  σ !! h = Some r -> σ !! other = Some o ->
  length (bucketBoundaries o) = length (bucketBoundaries r) ->
  well_formed r -> well_formed o -> int64_counters r ->
  exists σ1,
    DecrementFromHistogram h other σ = Ok σ1 /\
    IncrementFromHistogram h other σ1 = Ok σ.
Proof.
  intros Hne Hr Ho Hlen Hwr Hwo (Hc & Ht & Hn & Htot).
  assert (h < length σ)%nat as Hh by (by eapply lookup_lt_Some).
  exists (<[h := merged sub64 r o]> σ). split.
  { rewrite DecrementFromHistogram_merge_with. by apply merge_with_spec. }
  rewrite IncrementFromHistogram_merge_with.
  rewrite (merge_with_spec add64 h other _ (merged sub64 r o) o).
  - rewrite list_insert_insert_eq.
    assert (merged add64 (merged sub64 r o) o = r) as ->.
    { destruct Hwr as [Hrc Hrt]. destruct Hwo as [Hoc Hot].
      destruct r as [bb counts totals n tot]. unfold merged. simpl in *.
      rewrite !zip_add64_sub64 by (done || lia). by rewrite !add64_sub64. }
    by rewrite list_insert_id.
  - by apply list_lookup_insert_eq.
  - by rewrite list_lookup_insert_ne.
  - done.
  - by apply merged_well_formed.
  - done.
Qed.

Lemma subtract_then_merge_restores_witness :
  exists σ1,
    DecrementFromHistogram 0%nat 1%nat
      [mkHistogram [10] [1; 2] [5; 30] 3 35; mkHistogram [20] [4; 1] [7; 21] 5 28]
      = Ok σ1 /\
    IncrementFromHistogram 0%nat 1%nat σ1
      = Ok [mkHistogram [10] [1; 2] [5; 30] 3 35; mkHistogram [20] [4; 1] [7; 21] 5 28].
Proof.
  apply (subtract_then_merge_restores
    [mkHistogram [10] [1; 2] [5; 30] 3 35; mkHistogram [20] [4; 1] [7; 21] 5 28]
    0%nat 1%nat
    (mkHistogram [10] [1; 2] [5; 30] 3 35) (mkHistogram [20] [4; 1] [7; 21] 5 28));
    try done.
  repeat split; simpl; repeat constructor; unfold int64, MinInt64, MaxInt64; lia.
Defined.

(** ** How merging composes *)

Lemma bucket_index_same_boundaries (h1 h2 : Histogram) (val : Z) :
  bucketBoundaries h1 = bucketBoundaries h2 ->
  bucket_index h1 val = bucket_index h2 val.
Proof. intros Hb. unfold bucket_index, exceeds. by rewrite Hb. Qed.

Lemma add64_assoc (a b c : Z) : add64 a (add64 b c) = add64 (add64 a b) c.
Proof. unfold add64. rewrite wrap64_add_r, wrap64_add_l. f_equal. lia. Qed.

Lemma add64_swap (a b c : Z) : add64 (add64 a b) c = add64 (add64 a c) b.
Proof. unfold add64. rewrite !wrap64_add_l. f_equal. lia. Qed.

Lemma zip_add64_insert_r (l k : list Z) (i : nat) (x y d : Z) :
  l !! i = Some x -> k !! i = Some y ->
  zip_with add64 l (<[i := add64 y d]> k)
  = <[i := add64 (add64 x y) d]> (zip_with add64 l k).
Proof.
  revert k i. induction l as [| a l IH]; intros [| b k] [| i] Hx Hy;
    simpl in *; try done.
  - injection Hx as ->. injection Hy as ->. by rewrite add64_assoc.
  - f_equal. by apply IH.
Qed.

Lemma zip_add64_swap (a b c : list Z) :
  zip_with add64 (zip_with add64 a b) c = zip_with add64 (zip_with add64 a c) b.
Proof.
  revert b c. induction a as [| x a IH]; intros [| y b] [| z c]; simpl; try done.
  by rewrite add64_swap, IH.
Qed.

(** X9. Merging commutes with counting: for a source other than the
    target over the same boundaries, counting a sample in the source and then
    merging the source into the target gives the target the same state as
    merging first and then counting the sample in the target. *)
Theorem merge_after_Increment (σ : heap) (h other : ptr) (r o : Histogram) (val : Z) :
  h <> other ->
  σ !! h = Some r -> σ !! other = Some o ->
  bucketBoundaries o = bucketBoundaries r ->
  well_formed r -> well_formed o ->
  exists σ1 σ2,
    run [CallIncrement other val; CallIncrementFromHistogram h other] σ = Ok σ1 /\
    run [CallIncrementFromHistogram h other; CallIncrement h val] σ = Ok σ2 /\
    σ1 !! h = σ2 !! h.
Proof.
  intros Hne Hr Ho Hb Hwr Hwo.
  assert (h < length σ)%nat as Hh by (by eapply lookup_lt_Some).
  assert (other < length σ)%nat as Hoth by (by eapply lookup_lt_Some).
  pose proof Hwr as [Hrc Hrt]. pose proof Hwo as [Hoc Hot].
  destruct (bucket_index_total o val) as (i & Hi & Hle).
  destruct (lookup_lt_is_Some_2 (bucketCounts o) i) as [y Hy]; [lia |].
  destruct (lookup_lt_is_Some_2 (bucketTotals o) i) as [y' Hy']; [lia |].
  destruct (lookup_lt_is_Some_2 (bucketCounts r) i) as [x Hx]; [rewrite <- Hb in Hrc; lia |].
  destruct (lookup_lt_is_Some_2 (bucketTotals r) i) as [x' Hx']; [rewrite <- Hb in Hrt; lia |].
  set (o' := mkHistogram (bucketBoundaries o) (<[i := add64 y 1]> (bucketCounts o))
               (<[i := add64 y' val]> (bucketTotals o))
               (add64 (numSamples o) 1) (add64 (total o) val)).
  assert (well_formed o') as Hwo'.
  { split; subst o'; cbn [bucketCounts bucketTotals bucketBoundaries];
      by rewrite length_insert. }
  exists (<[h := merged add64 r o']> (<[other := o']> σ)).
  eexists. split_and!.
  - cbn [run exec]. unfold on_receiver. rewrite (deref_Ok _ _ _ Ho). cbn [bind].
    rewrite (Increment_Ok_intro o val i y y') by done. cbn [bind]. fold o'.
    rewrite IncrementFromHistogram_merge_with.
    rewrite (merge_with_spec add64 h other _ r o'); [done | | | | done | done].
    + by rewrite list_lookup_insert_ne.
    + by apply list_lookup_insert_eq.
    + subst o'. cbn [bucketBoundaries]. by rewrite Hb.
  - cbn [run exec]. rewrite IncrementFromHistogram_merge_with.
    rewrite (merge_with_spec add64 h other σ r o) by (done || by rewrite Hb).
    cbn [bind]. unfold on_receiver.
    rewrite (deref_insert_eq _ _ _ _ Hr). cbn [bind].
    rewrite (Increment_Ok_intro (merged add64 r o) val i (add64 x y) (add64 x' y')).
    + cbn [bind]. reflexivity.
    + rewrite <- Hi. apply bucket_index_same_boundaries. by rewrite Hb.
    + unfold merged. cbn [bucketCounts]. by rewrite lookup_zip_with, Hx, Hy.
    + unfold merged. cbn [bucketTotals]. by rewrite lookup_zip_with, Hx', Hy'.
  - rewrite list_insert_insert_eq.
    rewrite !list_lookup_insert_eq by (by rewrite ?length_insert).
    f_equal. unfold merged. subst o'.
    cbn [bucketBoundaries bucketCounts bucketTotals numSamples total].
    rewrite (zip_add64_insert_r _ _ i x y 1) by done.
    rewrite (zip_add64_insert_r _ _ i x' y' val) by done.
    by rewrite !add64_assoc.
Qed.

Lemma merge_after_Increment_witness :
  exists σ1 σ2,
    run [CallIncrement 1%nat 25; CallIncrementFromHistogram 0%nat 1%nat]
      [mkHistogram [10; 20] [1; 2; 0] [5; 30; 0] 3 35;
       mkHistogram [10; 20] [0; 1; 1] [0; 11; 21] 2 32] = Ok σ1 /\
    run [CallIncrementFromHistogram 0%nat 1%nat; CallIncrement 0%nat 25]
      [mkHistogram [10; 20] [1; 2; 0] [5; 30; 0] 3 35;
       mkHistogram [10; 20] [0; 1; 1] [0; 11; 21] 2 32] = Ok σ2 /\
    σ1 !! 0%nat = σ2 !! 0%nat.
Proof.
  by apply (merge_after_Increment _ 0%nat 1%nat
              (mkHistogram [10; 20] [1; 2; 0] [5; 30; 0] 3 35)
              (mkHistogram [10; 20] [0; 1; 1] [0; 11; 21] 2 32) 25).
Defined.

(** X10. Merges into one target commute: for two sources other than the
    target, each with as many boundaries as the target, merging the first
    and then the second leaves the same heap as merging them in the other
    order. *)
Theorem merges_commute (σ : heap) (h o1 o2 : ptr) (r s1 s2 : Histogram) :
  h <> o1 -> h <> o2 ->
  σ !! h = Some r -> σ !! o1 = Some s1 -> σ !! o2 = Some s2 ->
  length (bucketBoundaries s1) = length (bucketBoundaries r) ->
  length (bucketBoundaries s2) = length (bucketBoundaries r) ->
  well_formed r -> well_formed s1 -> well_formed s2 ->
  exists σ',
    run [CallIncrementFromHistogram h o1; CallIncrementFromHistogram h o2] σ = Ok σ' /\
    run [CallIncrementFromHistogram h o2; CallIncrementFromHistogram h o1] σ = Ok σ'.
Proof.
  intros Hne1 Hne2 Hr Hs1 Hs2 Hl1 Hl2 Hwr Hw1 Hw2.
  assert (h < length σ)%nat as Hh by (by eapply lookup_lt_Some).
  exists (<[h := merged add64 (merged add64 r s1) s2]> σ). split.
  - cbn [run exec]. rewrite IncrementFromHistogram_merge_with.
    rewrite (merge_with_spec add64 h o1 σ r s1) by done. cbn [bind].
    rewrite (merge_with_spec add64 h o2 _ (merged add64 r s1) s2).
    + cbn [bind]. by rewrite list_insert_insert_eq.
    + by apply list_lookup_insert_eq.
    + by rewrite list_lookup_insert_ne.
    + done.
    + by apply merged_well_formed.
    + done.
  - cbn [run exec]. rewrite IncrementFromHistogram_merge_with.
    rewrite (merge_with_spec add64 h o2 σ r s2) by done. cbn [bind].
    rewrite (merge_with_spec add64 h o1 _ (merged add64 r s2) s1).
    + cbn [bind]. rewrite list_insert_insert_eq. do 2 f_equal.
      unfold merged. cbn [bucketBoundaries bucketCounts bucketTotals numSamples total].
      f_equal; (apply zip_add64_swap || apply add64_swap).
    + by apply list_lookup_insert_eq.
    + by rewrite list_lookup_insert_ne.
    + done.
    + by apply merged_well_formed.
    + done.
Qed.

Lemma merges_commute_witness :
  exists σ',
    run [CallIncrementFromHistogram 0%nat 1%nat; CallIncrementFromHistogram 0%nat 2%nat]
      [mkHistogram [10] [1; 2] [5; 30] 3 35; mkHistogram [20] [4; 1] [7; 21] 5 28;
       mkHistogram [30] [0; 6] [0; 600] 6 600] = Ok σ' /\
    run [CallIncrementFromHistogram 0%nat 2%nat; CallIncrementFromHistogram 0%nat 1%nat]
      [mkHistogram [10] [1; 2] [5; 30] 3 35; mkHistogram [20] [4; 1] [7; 21] 5 28;
       mkHistogram [30] [0; 6] [0; 600] 6 600] = Ok σ'.
Proof.
  by apply (merges_commute _ 0%nat 1%nat 2%nat
              (mkHistogram [10] [1; 2] [5; 30] 3 35)
              (mkHistogram [20] [4; 1] [7; 21] 5 28)
              (mkHistogram [30] [0; 6] [0; 600] 6 600)).
Defined.

(** ** Clearing *)

(** X11. [Clear] puts a histogram of the data model back into the state
    the constructor gives: clearing twice is clearing once, and when the
    boundaries have no descent the cleared histogram is the one [New]
    returns for them. *)
Theorem Clear_gives_fresh_histogram (h : Histogram) :
  well_formed h ->
  exists h',
    Clear h = Ok h' /\
    Clear h' = Ok h' /\
    (~ has_descent (bucketBoundaries h) -> New (Some (bucketBoundaries h)) = Ok h').
Proof.
  intros Hw. eexists. split; [by apply Clear_zeroes |]. split.
  - rewrite Clear_zeroes.
    + reflexivity.
    + split; cbn [bucketCounts bucketTotals bucketBoundaries]; apply length_replicate.
  - intros Hnd. apply New_increasing.
    intros i x y Hx Hy. destruct (Z.lt_ge_cases x y) as [| Hge]; [done |].
    exfalso. apply Hnd. exists i, x, y. split_and!; [done | done | lia].
Qed.

Lemma Clear_gives_fresh_histogram_witness :
  exists h',
    Clear (mkHistogram [10; 20] [8; 0; 12] [20; 0; 92] 20 112) = Ok h' /\
    New (Some [10; 20]) = Ok h'.
Proof.
  destruct (Clear_gives_fresh_histogram
              (mkHistogram [10; 20] [8; 0; 12] [20; 0; 92] 20 112))
    as (h' & Hclear & _ & Hnew).
  - split; reflexivity.
  - exists h'. split; [done |]. apply Hnew.
    intros Hd. apply (descent_not_increasing _ Hd).
    by apply strictly_increasingb_sound.
Defined.

(** ** What a call may touch *)

(** What a successful call did to the heap: nothing, an allocation at the
    end, or a new state for its receiver over the same boundaries. *)
Lemma exec_effect (c : call) (σ σ' : heap) :
  heap_ok σ -> exec c σ = Ok σ' ->
  σ' = σ \/
  (exists r', σ' = σ ++ [r']) \/
  (exists (p : ptr) r r', receiver c = Some p /\ σ !! p = Some r /\
     σ' = <[p := r']> σ /\ bucketBoundaries r' = bucketBoundaries r /\
     well_formed r').
Proof.
  intros Hσ. destruct c as [b | p val | p val | p | p q | p q | p]; simpl.
  - destruct (New b) as [h | e | pn]; intros [= <-]; eauto.
  - intros (r & r' & Hp & Hm & ->)%on_receiver_Ok. right. right.
    exists p, r, r'. destruct (heap_ok_lookup _ _ _ Hσ Hp) as [[Hc Ht] _].
    apply Increment_Ok_inv in Hm as (i & c & t & _ & _ & _ & ->).
    split_and!; try done.
    split; cbn [bucketCounts bucketTotals bucketBoundaries]; by rewrite length_insert.
  - intros (r & r' & Hp & Hm & ->)%on_receiver_Ok. right. right.
    exists p, r, r'. destruct (heap_ok_lookup _ _ _ Hσ Hp) as [[Hc Ht] _].
    rewrite AtomicIncrement_unfold in Hm.
    apply Increment_Ok_inv in Hm as (i & c & t & _ & _ & _ & ->).
    split_and!; try done.
    split; cbn [bucketCounts bucketTotals bucketBoundaries]; by rewrite length_insert.
  - intros (r & r' & Hp & Hm & ->)%on_receiver_Ok. right. right.
    exists p, r, r'. destruct (heap_ok_lookup _ _ _ Hσ Hp) as [Hw _].
    rewrite (Clear_zeroes r Hw) in Hm. injection Hm as <-.
    split_and!; try done. apply (zeroed_histogram_ok (bucketBoundaries r)).
  - intros Hrun. right. right. pose proof Hrun as Hrun'.
    rewrite IncrementFromHistogram_merge_with in Hrun'.
    unfold merge_with, deref in Hrun'.
    destruct (σ !! q) as [o |] eqn:Ho; simpl in Hrun'; [| done].
    destruct (σ !! p) as [r |] eqn:Hr; simpl in Hrun'; [| done].
    destruct (Nat.eqb_spec (length (bucketBoundaries o)) (length (bucketBoundaries r)))
      as [Hlen | ?]; simpl in Hrun'; [| done].
    clear Hrun'. destruct (heap_ok_lookup _ _ _ Hσ Hr) as [Hwr _].
    destruct (heap_ok_lookup _ _ _ Hσ Ho) as [Hwo _].
    rewrite IncrementFromHistogram_merge_with in Hrun.
    rewrite (merge_with_spec add64 p q σ r o) in Hrun by done. injection Hrun as <-.
    exists p, r, (merged add64 r o). split_and!; try done.
    by apply merged_well_formed.
  - intros Hrun. right. right. pose proof Hrun as Hrun'.
    rewrite DecrementFromHistogram_merge_with in Hrun'.
    unfold merge_with, deref in Hrun'.
    destruct (σ !! q) as [o |] eqn:Ho; simpl in Hrun'; [| done].
    destruct (σ !! p) as [r |] eqn:Hr; simpl in Hrun'; [| done].
    destruct (Nat.eqb_spec (length (bucketBoundaries o)) (length (bucketBoundaries r)))
      as [Hlen | ?]; simpl in Hrun'; [| done].
    clear Hrun'. destruct (heap_ok_lookup _ _ _ Hσ Hr) as [Hwr _].
    destruct (heap_ok_lookup _ _ _ Hσ Ho) as [Hwo _].
    rewrite DecrementFromHistogram_merge_with in Hrun.
    rewrite (merge_with_spec sub64 p q σ r o) in Hrun by done. injection Hrun as <-.
    exists p, r, (merged sub64 r o). split_and!; try done.
    by apply merged_well_formed.
  - unfold deref. destruct (σ !! p) as [r |] eqn:Hp; simpl; [| done].
    rewrite Copy_same. simpl. intros [= <-]. eauto.
Qed.

Lemma exec_frame (c : call) (σ σ' : heap) (q : ptr) (r : Histogram) :
  heap_ok σ -> exec c σ = Ok σ' ->
  σ !! q = Some r -> receiver c <> Some q -> σ' !! q = Some r.
Proof.
  intros Hσ Hrun Hq Hrec.
  destruct (exec_effect c σ σ' Hσ Hrun)
    as [-> | [[r' ->] | (p & r0 & r' & Hp & _ & -> & _)]].
  - done.
  - rewrite lookup_app_l; [done | by eapply lookup_lt_Some].
  - rewrite list_lookup_insert_ne; [done | congruence].
Qed.

(** X12. On a heap of the data model a successful call writes to its
    receiver at most: the heap does not shrink, every histogram other than
    the receiver (the source of a merge and the original of a copy included)
    is exactly as before, and the receiver keeps its boundaries and its
    number of buckets. *)
Theorem calls_write_their_receiver_only (c : call) (σ σ' : heap) :
  heap_ok σ -> exec c σ = Ok σ' ->
  (length σ <= length σ')%nat /\
  (forall (q : ptr) r, σ !! q = Some r -> receiver c <> Some q -> σ' !! q = Some r) /\
  (forall (q : ptr) r, σ !! q = Some r ->
     exists r', σ' !! q = Some r' /\
       bucketBoundaries r' = bucketBoundaries r /\ Size r' = Size r).
Proof.
  intros Hσ Hrun. split_and!.
  - destruct (exec_effect c σ σ' Hσ Hrun)
      as [-> | [[r' ->] | (p & r0 & r' & _ & _ & -> & _)]].
    + done.
    + rewrite length_app. lia.
    + by rewrite length_insert.
  - intros q r Hq Hrec. by eapply exec_frame.
  - intros q r Hq.
    destruct (exec_effect c σ σ' Hσ Hrun)
      as [-> | [[r' ->] | (p & r0 & r' & _ & Hp & -> & Hb & [Hc' Ht'])]].
    + eauto.
    + exists r. rewrite lookup_app_l; [done | by eapply lookup_lt_Some].
    + destruct (decide (p = q)) as [-> | Hne].
      * exists r'. rewrite list_lookup_insert_eq by (by eapply lookup_lt_Some).
        assert (r0 = r) as -> by congruence.
        destruct (heap_ok_lookup _ _ _ Hσ Hq) as [[Hc Ht] _].
        split_and!; [done | done |]. unfold Size. by rewrite Hc', Ht', Hb, Hc, Ht.
      * exists r. by rewrite list_lookup_insert_ne.
Qed.

Lemma heap_ok_pair (h1 h2 : Histogram) :
  histogram_ok h1 -> histogram_ok h2 -> heap_ok [h1; h2].
Proof. intros H1 H2. constructor; [done | constructor; [done | constructor]]. Qed.

Lemma calls_write_their_receiver_only_witness :
  exists σ',
    exec (CallIncrement 0%nat 15)
      [mkHistogram [10; 20] [1; 2; 0] [5; 30; 0] 3 35;
       mkHistogram [10; 20] [0; 1; 1] [0; 11; 21] 2 32] = Ok σ' /\
    σ' !! 1%nat = Some (mkHistogram [10; 20] [0; 1; 1] [0; 11; 21] 2 32).
Proof.
  destruct (calls_write_their_receiver_only (CallIncrement 0%nat 15)
              [mkHistogram [10; 20] [1; 2; 0] [5; 30; 0] 3 35;
               mkHistogram [10; 20] [0; 1; 1] [0; 11; 21] 2 32]
              [mkHistogram [10; 20] [1; 3; 0] [5; 45; 0] 4 50;
               mkHistogram [10; 20] [0; 1; 1] [0; 11; 21] 2 32])
    as (_ & Hframe & _).
  - apply heap_ok_pair; repeat split; vm_compute; reflexivity.
  - vm_compute. reflexivity.
  - eexists. split; [vm_compute; reflexivity |]. by apply Hframe.
Defined.



(** ** When a call panics *)

Lemma exec_Ok_valid (c : call) (σ σ' : heap) :
  exec c σ = Ok σ' -> call_valid c σ.
Proof.
  destruct c as [b | p val | p val | p | p q | p q | p]; simpl; [done | ..].
  - intros (r & r' & Hp & _)%on_receiver_Ok. eauto.
  - intros (r & r' & Hp & _)%on_receiver_Ok. eauto.
  - intros (r & r' & Hp & _)%on_receiver_Ok. eauto.
  - rewrite IncrementFromHistogram_merge_with. unfold merge_with, deref.
    destruct (σ !! q) as [o |] eqn:Ho; simpl; [| done].
    destruct (σ !! p) as [r |] eqn:Hr; simpl; [| done].
    destruct (Nat.eqb_spec (length (bucketBoundaries o)) (length (bucketBoundaries r)))
      as [Hlen | ?]; simpl; [| done].
    intros _. exists r, o. done.
  - rewrite DecrementFromHistogram_merge_with. unfold merge_with, deref.
    destruct (σ !! q) as [o |] eqn:Ho; simpl; [| done].
    destruct (σ !! p) as [r |] eqn:Hr; simpl; [| done].
    destruct (Nat.eqb_spec (length (bucketBoundaries o)) (length (bucketBoundaries r)))
      as [Hlen | ?]; simpl; [| done].
    intros _. exists r, o. done.
  - unfold deref. destruct (σ !! p) as [r |]; simpl; [eauto | done].
Qed.

(** X14. On a heap of the data model a call returns normally exactly when
    its pointers name allocated histograms and, for a merge or a
    subtraction, the two histograms have as many boundaries; the constructor
    call always returns. The heap it leaves is again one of the data model
    (N+1 counters everywhere, sample count and total equal to the bucket
    sums). *)
Theorem calls_panic_only_on_misuse (c : call) (σ : heap) :
  heap_ok σ ->
  ((exists σ', exec c σ = Ok σ') <-> call_valid c σ) /\
  (forall σ', exec c σ = Ok σ' -> heap_ok σ').
Proof.
  intros Hσ. split; [split |].
  - intros [σ' Hrun]. by eapply exec_Ok_valid.
  - by apply exec_succeeds.
  - intros σ' Hrun. by eapply exec_heap_ok.
Qed.

Lemma calls_panic_only_on_misuse_witness :
  (exists σ', exec (CallIncrementFromHistogram 0%nat 1%nat)
     [mkHistogram [10; 20] [1; 2; 0] [5; 30; 0] 3 35;
      mkHistogram [10; 20] [0; 1; 1] [0; 11; 21] 2 32] = Ok σ') /\
  exec (CallIncrementFromHistogram 0%nat 1%nat)
    [mkHistogram [10; 20] [1; 2; 0] [5; 30; 0] 3 35;
     mkHistogram [10] [1; 1] [0; 11] 2 11]
  = Panic (PanicMsg "Mismatch in sizes of  bucketBoundaries").
Proof.
  split; [| vm_compute; reflexivity].
  apply (calls_panic_only_on_misuse (CallIncrementFromHistogram 0%nat 1%nat)
           [mkHistogram [10; 20] [1; 2; 0] [5; 30; 0] 3 35;
            mkHistogram [10; 20] [0; 1; 1] [0; 11; 21] 2 32]).
  - apply heap_ok_pair; repeat split; vm_compute; reflexivity.
  - simpl. eexists _, _. done.
Defined.

(** ** Bounds of the counter accessors *)

(** X15. On a histogram of the data model, [BucketCount], [BucketTotal]
    and [BucketAverage] return normally for every index in [0, N] and panic
    with an index-out-of-range run-time error, not a message of their own,
    for every other index. *)
Theorem counter_accessors_bounds (h : Histogram) (index : Z) :
  well_formed h ->
  (0 <= index <= Z.of_nat (length (bucketBoundaries h)) ->
     exists c t a,
       BucketCount h index = Ok c /\ BucketTotal h index = Ok t /\
       BucketAverage h index = Ok a) /\
  (index < 0 \/ index > Z.of_nat (length (bucketBoundaries h)) ->
     BucketCount h index = Panic IndexOutOfRange /\
     BucketTotal h index = Panic IndexOutOfRange /\
     BucketAverage h index = Panic IndexOutOfRange).
Proof.
  intros [Hc Ht]. unfold BucketCount, BucketTotal, BucketAverage. split.
  - intros Hi. rewrite <- (Z2Nat.id index) by lia. rewrite !slice_getZ_of_nat.
    destruct (lookup_lt_is_Some_2 (bucketCounts h) (Z.to_nat index)) as [c Hci]; [lia |].
    destruct (lookup_lt_is_Some_2 (bucketTotals h) (Z.to_nat index)) as [t Hti]; [lia |].
    rewrite (proj2 (slice_get_Ok _ _ _) Hci), (proj2 (slice_get_Ok _ _ _) Hti).
    cbn [bind]. exists c, t. destruct (c =? 0); eauto.
  - intros Hout. unfold slice_getZ.
    destruct (Z.ltb_spec index 0) as [| Hge]; [done |].
    unfold slice_get.
    rewrite (lookup_ge_None_2 (bucketCounts h)), (lookup_ge_None_2 (bucketTotals h))
      by lia.
    done.
Qed.

Lemma counter_accessors_bounds_witness :
  BucketCount (mkHistogram [10; 20] [1; 2; 0] [5; 30; 0] 3 35) 3 = Panic IndexOutOfRange /\
  BucketCount (mkHistogram [10; 20] [1; 2; 0] [5; 30; 0] 3 35) (-1) = Panic IndexOutOfRange.
Proof.
  split.
  - apply (counter_accessors_bounds (mkHistogram [10; 20] [1; 2; 0] [5; 30; 0] 3 35) 3).
    + split; reflexivity.
    + simpl. lia.
  - apply (counter_accessors_bounds (mkHistogram [10; 20] [1; 2; 0] [5; 30; 0] 3 35) (-1)).
    + split; reflexivity.
    + simpl. lia.
Defined.

(** ** Atomic increments, in any order *)

Lemma atomic_AddInt64_comm (a b : addr) (d e : Z) (h : Histogram) :
  atomic_AddInt64 a d (atomic_AddInt64 b e h)
  = atomic_AddInt64 b e (atomic_AddInt64 a d h).
Proof.
  assert (forall (l : list Z) (i j : nat),
    <[i := add64 (default 0 (<[j := add64 (default 0 (l !! j)) e]> l !! i)) d]>
      (<[j := add64 (default 0 (l !! j)) e]> l)
    = <[j := add64 (default 0 (<[i := add64 (default 0 (l !! i)) d]> l !! j)) e]>
        (<[i := add64 (default 0 (l !! i)) d]> l)) as Hslice.
  { intros l i j. destruct (decide (i = j)) as [-> | Hne].
    - destruct (decide (j < length l)%nat) as [Hj | Hj].
      + rewrite !list_lookup_insert_eq by done. simpl.
        rewrite !list_insert_insert_eq. f_equal. apply add64_swap.
      + by repeat (rewrite (list_insert_ge l) by lia).
    - rewrite !list_lookup_insert_ne by done.
      by apply list_insert_insert_ne. }
  destruct a as [i | i | |], b as [j | j | |]; unfold atomic_AddInt64;
    cbn [load store bucketBoundaries bucketCounts bucketTotals numSamples total];
    try reflexivity.
  - by rewrite Hslice.
  - by rewrite Hslice.
  - by rewrite add64_swap.
  - by rewrite add64_swap.
Qed.

Lemma run_steps_app (s1 s2 : list (addr * Z)) (h : Histogram) :
  run_steps (s1 ++ s2) h = run_steps s2 (run_steps s1 h).
Proof. unfold run_steps. apply foldl_app. Qed.

Lemma run_steps_Permutation (s1 s2 : list (addr * Z)) (h : Histogram) :
  Permutation s1 s2 -> run_steps s1 h = run_steps s2 h.
Proof.
  intros Hp. revert h. induction Hp as [| x s1 s2 _ IH | x y s | s1 s2 s3 _ IH1 _ IH2];
    intros h.
  - done.
  - unfold run_steps in *. cbn [foldl]. apply IH.
  - unfold run_steps. cbn [foldl]. by rewrite atomic_AddInt64_comm.
  - by rewrite IH1, IH2.
Qed.

Lemma run_atomic_steps (h : Histogram) (val : Z) (i : nat) :
  well_formed h -> (i <= length (bucketBoundaries h))%nat ->
  run_steps (atomic_steps i val) h
  = mkHistogram (bucketBoundaries h)
      (<[i := add64 (default 0 (bucketCounts h !! i)) 1]> (bucketCounts h))
      (<[i := add64 (default 0 (bucketTotals h !! i)) val]> (bucketTotals h))
      (add64 (numSamples h) 1) (add64 (total h) val).
Proof. intros _ _. reflexivity. Qed.

Lemma AtomicIncrement_run_steps (h : Histogram) (val : Z) (i : nat) :
  well_formed h -> bucket_index h val = Ok i ->
  AtomicIncrement h val = Ok (run_steps (atomic_steps i val) h).
Proof.
  intros [Hc Ht] Hi. pose proof (Search_bound _ _ _ Hi) as Hle.
  destruct (lookup_lt_is_Some_2 (bucketCounts h) i) as [c Hci]; [lia |].
  destruct (lookup_lt_is_Some_2 (bucketTotals h) i) as [t Hti]; [lia |].
  rewrite AtomicIncrement_unfold, (Increment_Ok_intro h val i c t) by done.
  rewrite run_atomic_steps by (done || lia). by rewrite Hci, Hti.
Qed.

Lemma run_batch_sequentially (h0 : Histogram) (p : ptr) (vals : list Z)
    (indices : list nat) :
  Forall2 (fun v i => bucket_index h0 v = Ok i) vals indices ->
  forall (h : Histogram) (σ : heap),
    bucketBoundaries h = bucketBoundaries h0 -> well_formed h ->
    σ !! p = Some h ->
    run (map (CallAtomicIncrement p) vals) σ
    = Ok (<[p := run_steps (batch_steps indices vals) h]> σ).
Proof.
  induction 1 as [| v i vals indices Hi _ IH]; intros h σ Hb Hw Hp.
  - cbn [map run batch_steps zip_with concat run_steps foldl].
    by rewrite list_insert_id.
  - cbn [map run exec]. unfold on_receiver. rewrite (deref_Ok _ _ _ Hp). cbn [bind].
    assert (bucket_index h v = Ok i) as Hi'.
    { rewrite <- Hi. by apply bucket_index_same_boundaries. }
    rewrite (AtomicIncrement_run_steps h v i Hw Hi'). cbn [bind].
    pose proof (Search_bound _ _ _ Hi') as Hle.
    rewrite (IH (run_steps (atomic_steps i v) h)).
    + rewrite list_insert_insert_eq. reflexivity.
    + by rewrite run_atomic_steps.
    + rewrite run_atomic_steps by done. destruct Hw as [Hc Ht].
      split; cbn [bucketCounts bucketTotals bucketBoundaries]; by rewrite length_insert.
    + apply list_lookup_insert_eq. by eapply lookup_lt_Some.
Qed.

Lemma numSamples_batch (indices : list nat) (vals : list Z) (h : Histogram) :
  length indices = length vals ->
  wrap64 (numSamples (run_steps (batch_steps indices vals) h))
  = wrap64 (numSamples h + Z.of_nat (length vals)).
Proof.
  revert vals h. induction indices as [| i indices IH]; intros [| v vals] h Hlen;
    try done.
  - cbn [batch_steps zip_with concat run_steps foldl length]. f_equal. lia.
  - unfold batch_steps. cbn [zip_with concat]. rewrite run_steps_app.
    fold (batch_steps indices vals). rewrite IH by (simpl in Hlen; lia).
    change (numSamples (run_steps (atomic_steps i v) h)) with (add64 (numSamples h) 1).
    unfold add64. rewrite wrap64_add_l. f_equal. cbn [length]. lia.
Qed.

(** X16. No atomic increment is lost to interleaving: take a batch of
    [AtomicIncrement] calls on one histogram of the data model and let their
    atomic adds, four per call, take effect in any order whatever. The state
    reached is the one reached by running the calls one after the other; it
    satisfies the counter invariant when the start state did, and its sample
    count is the old one plus the number of calls. *)
Theorem atomic_increments_any_interleaving (σ : heap) (p : ptr) (h : Histogram)
    (vals : list Z) (indices : list nat) (schedule : list (addr * Z)) :
  σ !! p = Some h ->
  histogram_ok h ->
  Forall2 (fun v i => bucket_index h v = Ok i) vals indices ->
  Permutation schedule (batch_steps indices vals) ->
  run (map (CallAtomicIncrement p) vals) σ = Ok (<[p := run_steps schedule h]> σ) /\
  histogram_ok (run_steps schedule h) /\
  numSamples (run_steps schedule h) = wrap64 (numSamples h + Z.of_nat (length vals)).
Proof.
  intros Hp Hok Hidx Hperm.
  rewrite (run_steps_Permutation _ _ h Hperm).
  pose proof Hok as [Hw [Hn _]].
  assert (histogram_ok (run_steps (batch_steps indices vals) h)) as Hok'.
  { assert (heap_ok [run_steps (batch_steps indices vals) h]) as Hheap.
    { apply (run_heap_ok (map (CallAtomicIncrement 0%nat) vals) [h]).
      - constructor; [done | constructor].
      - by rewrite (run_batch_sequentially h 0%nat vals indices Hidx h [h]). }
    by eapply (heap_ok_lookup _ 0%nat). }
  split_and!.
  - by apply (run_batch_sequentially h).
  - done.
  - destruct Hok' as [_ [Hn' _]].
    rewrite <- (wrap64_id (numSamples _)).
    + apply numSamples_batch. symmetry. by eapply Forall2_length.
    + rewrite Hn'. apply wrap64_int64.
Qed.

Lemma atomic_increments_any_interleaving_witness :
  run [CallAtomicIncrement 0%nat 5; CallAtomicIncrement 0%nat 25]
    [mkHistogram [10; 20] [0; 0; 0] [0; 0; 0] 0 0]
  = Ok [run_steps [(AddrBucketCounts 2, 1); (AddrBucketCounts 0, 1);
                   (AddrTotal, 5); (AddrNumSamples, 1);
                   (AddrBucketTotals 2, 25); (AddrNumSamples, 1);
                   (AddrBucketTotals 0, 5); (AddrTotal, 25)]
          (mkHistogram [10; 20] [0; 0; 0] [0; 0; 0] 0 0)].
Proof.
  apply (atomic_increments_any_interleaving
           [mkHistogram [10; 20] [0; 0; 0] [0; 0; 0] 0 0] 0%nat
           (mkHistogram [10; 20] [0; 0; 0] [0; 0; 0] 0 0)
           [5; 25] [0%nat; 2%nat]).
  - reflexivity.
  - repeat split; vm_compute; reflexivity.
  - repeat constructor; vm_compute; reflexivity.
  - cbn [batch_steps zip_with concat atomic_steps app]. solve_Permutation.
Defined.

Lemma add64_moves (n d : Z) : int64 n -> int64 d -> d <> 0 -> add64 n d <> n.
Proof.
  unfold add64, wrap64, int64, MinInt64, MaxInt64. intros Hn Hd Hd0 Heq.
  pose proof (Z.div_mod (n + d + 2 ^ 63) (2 ^ 64) ltac:(lia)) as Hdm.
  assert (d = 2 ^ 64 * ((n + d + 2 ^ 63) / 2 ^ 64)) as Hk by lia.
  lia.
Qed.

(** X17. One [AtomicIncrement] is not one transaction: on a histogram
    that satisfies the counter invariant, the states between its atomic adds
    break it. After the first add and after the second the sample count lags
    behind the bucket counts; after the third, for a sample other than 0,
    the total lags behind the bucket totals; only after the fourth does the
    invariant hold again. *)
Theorem AtomicIncrement_is_not_a_transaction (h : Histogram) (val : Z) (i : nat) :
  histogram_ok h ->
  bucket_index h val = Ok i ->
  ~ counters_consistent (run_steps (take 1 (atomic_steps i val)) h) /\
  ~ counters_consistent (run_steps (take 2 (atomic_steps i val)) h) /\
  (int64 val -> val <> 0 ->
     ~ counters_consistent (run_steps (take 3 (atomic_steps i val)) h)) /\
  counters_consistent (run_steps (atomic_steps i val) h) /\
  AtomicIncrement h val = Ok (run_steps (atomic_steps i val) h).
Proof.
  intros [[Hc Ht] [Hn Htot]] Hi. pose proof (Search_bound _ _ _ Hi) as Hle.
  destruct (lookup_lt_is_Some_2 (bucketCounts h) i) as [c Hci]; [lia |].
  destruct (lookup_lt_is_Some_2 (bucketTotals h) i) as [t Hti]; [lia |].
  assert (sum64 (<[i := add64 c 1]> (bucketCounts h)) <> numSamples h) as Hlag.
  { rewrite sum64_insert_add64, <- Hn by done.
    apply add64_moves; [rewrite Hn; apply wrap64_int64 | | lia].
    unfold int64, MinInt64, MaxInt64. lia. }
  unfold counters_consistent, atomic_steps, run_steps, atomic_AddInt64.
  cbn [take foldl fst snd load store bucketBoundaries bucketCounts bucketTotals
       numSamples total].
  rewrite Hci, Hti. simpl default. split_and!.
  - intros [Hbad _]. by apply Hlag.
  - intros [Hbad _]. by apply Hlag.
  - intros Hval Hval0 [_ Hbad]. revert Hbad.
    rewrite sum64_insert_add64, <- Htot by done. intros Hbad.
    apply (add64_moves (total h) val); [rewrite Htot; apply wrap64_int64 | done | done |].
    done.
  - by rewrite sum64_insert_add64, Hn.
  - by rewrite sum64_insert_add64, Htot.
  - rewrite AtomicIncrement_unfold. by apply (Increment_Ok_intro h val i c t).
Qed.

Lemma AtomicIncrement_is_not_a_transaction_witness :
  ~ counters_consistent
      (run_steps (take 1 (atomic_steps 1 15))
         (mkHistogram [10; 20] [1; 2; 0] [5; 30; 0] 3 35)) /\
  counters_consistent
    (run_steps (atomic_steps 1 15) (mkHistogram [10; 20] [1; 2; 0] [5; 30; 0] 3 35)).
Proof.
  destruct (AtomicIncrement_is_not_a_transaction
              (mkHistogram [10; 20] [1; 2; 0] [5; 30; 0] 3 35) 15 1)
    as (H1 & _ & _ & H4 & _).
  - repeat split; vm_compute; reflexivity.
  - vm_compute. reflexivity.
  - done.
Defined.

(** ** Range as constructor input *)

(** X18. What [New] makes of the output of [Range], when the length
    computation does not overflow: an ascending range ([step > 0]) always
    passes validation and gives a zeroed histogram with one bucket more than
    the range has elements; a descending range ([step < 0]) of two or more
    elements is rejected with [invalidBoundariesError]; and the nil slice of
    a degenerate call is rejected with [emptyError]. *)
Theorem New_of_Range (start stop step : Z) :
  int64 start -> int64 stop ->
  int64 (stop - start) ->
  (stop - start) ÷ step + 1 <= MaxInt64 ->
  (0 < step -> start <= stop ->
     exists values,
       Range start stop step = Ok (Some values) /\
       New (Some values) =
         Ok (mkHistogram values (replicate (S (length values)) 0)
               (replicate (S (length values)) 0) 0 0)) /\
  (step < 0 -> 1 <= (stop - start) ÷ step ->
     exists values,
       Range start stop step = Ok (Some values) /\
       New (Some values) = Error invalidBoundariesError) /\
  (degenerate start stop step = true ->
     exists s, Range start stop step = Ok s /\ New s = Error emptyError).
Proof.
  intros Hstart Hstop Hdiff Hlen. split_and!.
  - intros Hstep Hle.
    destruct (Range_progression start stop step) as (values & Hrun & Hl & Hval);
      try done.
    { unfold degenerate. lia. }
    exists values. split; [done |]. apply New_increasing.
    intros i x y Hx Hy.
    pose proof (lookup_lt_Some _ _ _ Hx) as Hi. pose proof (lookup_lt_Some _ _ _ Hy) as HSi.
    rewrite (Hval i Hi) in Hx. rewrite (Hval (S i) HSi) in Hy.
    injection Hx as <-. injection Hy as <-. lia.
  - intros Hstep Hq.
    assert (degenerate start stop step = false) as Hd.
    { unfold degenerate. destruct (Z.ltb_spec start stop) as [Hlt |]; [| lia].
      exfalso. pose proof (Z.quot_rem' (stop - start) step).
      pose proof (Z.rem_nonneg (stop - start) step ltac:(lia) ltac:(lia)).
      pose proof (Z.rem_bound_abs (stop - start) step ltac:(lia)). nia. }
    destruct (Range_progression start stop step) as (values & Hrun & Hl & Hval);
      try done.
    exists values. split; [done |]. apply New_descent.
    exists 0%nat, start, (start + step).
    rewrite (Hval 0%nat) by lia. rewrite (Hval 1%nat) by lia.
    split_and!; [f_equal; lia | f_equal; lia | lia].
  - intros Hd. exists None. split; [by apply Range_degenerate | done].
Qed.

Lemma New_of_Range_witness :
  (exists values, Range 0 100 25 = Ok (Some values) /\
     New (Some values) =
       Ok (mkHistogram values (replicate (S (length values)) 0)
             (replicate (S (length values)) 0) 0 0)) /\
  (exists values, Range 10 1 (-3) = Ok (Some values) /\
     New (Some values) = Error invalidBoundariesError).
Proof.
  split.
  - apply (New_of_Range 0 100 25); unfold int64, MinInt64, MaxInt64; try lia.
    vm_compute. discriminate.
  - apply (New_of_Range 10 1 (-3)); unfold int64, MinInt64, MaxInt64; try lia.
    + vm_compute. discriminate.
    + vm_compute. discriminate.
Defined.

(** X19. Where [Range] stops: for a call that is not degenerate and does
    not overflow, the result is never empty, starts at [start], stays
    between [start] and [stop], and ends at
    [stop - (stop - start) rem step]: at [stop] itself when [step] divides
    [stop - start], and less than one step short of it otherwise. *)
Theorem Range_ends_near_stop (start stop step : Z) :
  int64 start -> int64 stop ->
  degenerate start stop step = false ->
  int64 (stop - start) ->
  (stop - start) ÷ step + 1 <= MaxInt64 ->
  exists values final,
    Range start stop step = Ok (Some values) /\
    values !! 0%nat = Some start /\
    last values = Some final /\
    final = stop - Z.rem (stop - start) step /\
    Z.abs (stop - final) < Z.abs step /\
    (Z.rem (stop - start) step = 0 -> final = stop) /\
    Forall (fun x => Z.min start stop <= x <= Z.max start stop) values.
Proof.
  intros Hstart Hstop Hd Hdiff Hlen.
  pose proof Hd as (Hstep & Hpos & Hneg)%degenerate_false.
  pose proof (quot_nonneg_same_direction start stop step Hstep Hpos Hneg) as Hq.
  destruct (Range_progression start stop step) as (values & Hrun & Hl & Hval);
    try done.
  pose proof (Z.quot_rem' (stop - start) step) as Hqr.
  exists values, (stop - Z.rem (stop - start) step). split_and!; try done.
  - rewrite (Hval 0%nat) by lia. f_equal. lia.
  - rewrite last_lookup, (Hval (pred (length values))) by lia. f_equal. nia.
  - replace (stop - (stop - Z.rem (stop - start) step))
      with (Z.rem (stop - start) step) by lia.
    by apply Z.rem_bound_abs.
  - intros ->. lia.
  - apply Forall_lookup_2. intros k x Hx.
    pose proof (lookup_lt_Some _ _ _ Hx) as Hk.
    rewrite (Hval k Hk) in Hx. injection Hx as <-.
    apply quot_progression_bounds; try done. lia.
Qed.

Lemma Range_ends_near_stop_witness :
  exists values final,
    Range 1 11 3 = Ok (Some values) /\
    last values = Some final /\
    final = 11 - Z.rem (11 - 1) 3.
Proof.
  destruct (Range_ends_near_stop 1 11 3)
    as (values & final & Hrun & _ & Hlast & Hfinal & _);
    unfold int64, MinInt64, MaxInt64; try lia; try done.
  exists values, final. done.
Defined.

(** X20. What [Range] never does: for any [int64] start and any stop and
    step it neither divides by zero nor indexes its slice out of range; it
    either returns, or panics in [make] on a negative length. A slice it
    returns holds [int64] values only. *)
Theorem Range_panics_only_in_make (start stop step : Z) :
  int64 start ->
  ((exists s, Range start stop step = Ok s) \/
   Range start stop step = Panic MakesliceLenOutOfRange) /\
  (forall values, Range start stop step = Ok (Some values) -> Forall int64 values).
Proof.
  intros Hstart. unfold Range.
  destruct (step =? 0) eqn:Hz; [split; [eauto | done] |].
  destruct ((step >? 0) && (start >? stop)); [split; [eauto | done] |].
  destruct ((step <? 0) && (start <? stop)); [split; [eauto | done] |].
  unfold div64. rewrite Hz. cbn [bind].
  set (len := add64 (wrap64 (sub64 stop start ÷ step)) 1).
  unfold make. destruct (Z.ltb_spec len 0) as [Hneg | Hpos]; [split; [eauto | done] |].
  cbn [bind].
  destruct (Range_loop_spec start step (Z.to_nat len) 0 (replicate (Z.to_nat len) 0))
    as (values & Hrun & Hl & Hin & _).
  { rewrite length_replicate. lia. }
  change (Z.of_nat 0) with 0 in Hrun.
  rewrite Z.mul_0_l, Z.add_0_r, (wrap64_id start) in Hrun by done.
  rewrite Hrun. cbn [bind fst]. split; [eauto |].
  intros values' [= <-]. apply Forall_lookup_2. intros k x Hx.
  pose proof (lookup_lt_Some _ _ _ Hx) as Hk.
  rewrite Hl, length_replicate in Hk.
  rewrite Hin in Hx by lia. injection Hx as <-. apply wrap64_int64.
Qed.

Lemma Range_panics_only_in_make_witness :
  (exists s, Range 0 MinInt64 (-1) = Ok s) \/
  Range 0 MinInt64 (-1) = Panic MakesliceLenOutOfRange.
Proof.
  apply (Range_panics_only_in_make 0 MinInt64 (-1)).
  unfold int64, MinInt64, MaxInt64. lia.
Defined.

(** ** Counting samples *)

Lemma run_Increments (vals : list Z) (h : Histogram) :
  well_formed h -> int64 (numSamples h) -> int64 (total h) ->
  exists h',
    run (map (CallIncrement 0%nat) vals) [h] = Ok [h'] /\
    bucketBoundaries h' = bucketBoundaries h /\
    numSamples h' = wrap64 (numSamples h + Z.of_nat (length vals)) /\
    total h' = wrap64 (total h + sumZ vals).
Proof.
  revert h. induction vals as [| v vals IH]; intros h Hw Hn Ht.
  - exists h. cbn [map run length sumZ foldr]. rewrite !Z.add_0_r, !wrap64_id by done.
    done.
  - destruct (bucket_index_total h v) as (i & Hi & Hle). destruct Hw as [Hc Hto].
    destruct (lookup_lt_is_Some_2 (bucketCounts h) i) as [c Hci]; [lia |].
    destruct (lookup_lt_is_Some_2 (bucketTotals h) i) as [t Hti]; [lia |].
    cbn [map run exec]. unfold on_receiver, deref. cbn [lookup list_lookup bind].
    rewrite (Increment_Ok_intro h v i c t) by done. cbn [bind insert list_insert].
    destruct (IH (mkHistogram (bucketBoundaries h) (<[i := add64 c 1]> (bucketCounts h))
                    (<[i := add64 t v]> (bucketTotals h))
                    (add64 (numSamples h) 1) (add64 (total h) v)))
      as (h' & Hrun & Hb & Hn' & Ht').
    + split; cbn [bucketCounts bucketTotals bucketBoundaries]; by rewrite length_insert.
    + apply add64_int64.
    + apply add64_int64.
    + exists h'. cbn [bucketBoundaries numSamples total] in *.
      split_and!; [done | done | |].
      * rewrite Hn'. unfold add64. rewrite wrap64_add_l. f_equal. cbn [length]. lia.
      * rewrite Ht'. unfold add64. rewrite wrap64_add_l. f_equal.
        cbn [sumZ foldr]. fold (sumZ vals). lia.
Qed.

(** X21. What the aggregates mean: construct a histogram over accepted
    boundaries and count any list of samples in it. No call panics,
    [Count()] is the number of samples and [Total()] is their sum, both as
    [int64] (so exactly, as long as they fit), and the boundaries are the
    ones given. *)
Theorem aggregates_of_fresh_histogram (b : list Z) (h0 : Histogram) (vals : list Z) :
  New (Some b) = Ok h0 ->
  exists h,
    run (CallNew (Some b) :: map (CallIncrement 0%nat) vals) [] = Ok [h] /\
    bucketBoundaries h = b /\
    Count h = wrap64 (Z.of_nat (length vals)) /\
    Total h = wrap64 (sumZ vals) /\
    (int64 (Z.of_nat (length vals)) -> Count h = Z.of_nat (length vals)) /\
    (int64 (sumZ vals) -> Total h = sumZ vals).
Proof.
  intros Hnew. pose proof (New_histogram_ok _ _ Hnew) as [Hw _].
  assert (bucketBoundaries h0 = b /\ numSamples h0 = 0 /\ total h0 = 0) as (Hb & Hn & Ht).
  { unfold New in Hnew. apply bind_Ok in Hnew as ([] & _ & Hnew).
    apply bind_Ok in Hnew as (counts & _ & Hnew).
    apply bind_Ok in Hnew as (totals & _ & Hnew). by injection Hnew as <-. }
  destruct (run_Increments vals h0 Hw) as (h & Hrun & Hb' & Hn' & Ht').
  { rewrite Hn. unfold int64, MinInt64, MaxInt64. lia. }
  { rewrite Ht. unfold int64, MinInt64, MaxInt64. lia. }
  exists h. unfold Count, Total. rewrite Hn', Ht', Hn, Ht, !Z.add_0_l.
  split_and!; try done.
  - cbn [run exec]. rewrite Hnew. cbn [bind app]. exact Hrun.
  - congruence.
  - apply wrap64_id.
  - apply wrap64_id.
Qed.

Lemma aggregates_of_fresh_histogram_witness :
  exists h,
    run (CallNew (Some [1; 2; 3; 4]) :: map (CallIncrement 0%nat) [1; 1; 2; 3; 0; 4]) []
      = Ok [h] /\
    Count h = 6 /\ Total h = 11.
Proof.
  destruct (aggregates_of_fresh_histogram [1; 2; 3; 4]
              (mkHistogram [1; 2; 3; 4] [0; 0; 0; 0; 0] [0; 0; 0; 0; 0] 0 0)
              [1; 1; 2; 3; 0; 4])
    as (h & Hrun & _ & _ & _ & Hn & Ht); [reflexivity |].
  exists h. split; [exact Hrun |].
  split; [apply Hn | apply Ht]; unfold int64, MinInt64, MaxInt64; simpl; lia.
Defined.
